(** * Rhasspy web application (app.py): event bus and engine lifecycle

    A shallow embedding of the websocket event bus ([ws_queues],
    [add_ws_event], the two [/api/events/...] session handlers), of the
    observer that turns recognized intents into events
    ([WebSocketObserver.in_started]) and of the engine lifecycle
    ([shutdown], [start_rhasspy], [api_restart]) of [app.py].

    Python objects with identity (websockets, queues, engine instances) live
    in explicit stores and are named by their index; module globals are the
    fields of [State]; a function that can raise returns a [result]; the
    code of other modules (the engine, [json], [logging], [requests]) is a
    parameter, collected in the record [External].

    The process runs on gevent: a greenlet keeps the processor until it
    blocks, so each function below is one uninterrupted step and a run of
    the process is a sequence of such steps.  The locks [ws_locks] and the
    yield [gevent.sleep(0)] do not change the state and are left out, and so
    is what [ws.send] does on the network. *)

From stdpp Require Import base option list numbers strings pretty gmap fin_maps.
From Stdlib Require Import ZArith QArith Qcanon Lia.

Set Warnings "-register-all".

Open Scope Z_scope.
Open Scope string_scope.
Open Scope list_scope.

(* ===================================================================== *)
(** ** Python values *)
(* ===================================================================== *)

(** The fragment of Python data that occurs in an intent payload: [None],
    booleans, integers, finite floats, strings, lists and dictionaries.  A
    float is carried by its exact value, which is all that is done with one
    here (it is stored, compared as a key, serialized).  A dictionary keeps
    its insertion order, which [json.dumps] shows, so it is an association
    list. *)
Inductive PyVal : Type :=
  | PNone
  | PBool (b : bool)
  | PInt (n : Z)
  | PFloat (x : Qc)
  | PStr (s : string)
  | PList (items : list PyVal)
  | PDict (entries : list (PyVal * PyVal)).

Definition Dict : Type := list (PyVal * PyVal).

(** Exceptions of the fragment.  [AssertionError] and [Exception] carry the
    text that [str(err)] returns. *)
Inductive exn : Type :=
  | AssertionError (msg : string)
  | KeyError
  | TypeError
  | IndexError
  | Exception (msg : string).

Inductive result (A : Type) : Type :=
  | Ok (a : A)
  | Raise (e : exn).
Arguments Ok {A} a.
Arguments Raise {A} e.

Definition is_ok {A} (r : result A) : bool :=
  match r with Ok _ => true | Raise _ => false end.

Definition rbind {A B} (r : result A) (k : A -> result B) : result B :=
  match r with
  | Ok a => k a
  | Raise e => Raise e
  end.

Notation "'try!' x ':=' r 'in' k" := (rbind r (fun x => k))
  (at level 10, x name, r at level 100, k at level 200).

(** *** Dictionary keys

    [hashable] is Python's [__hash__] being defined; [key_eqb] is [==] on
    hashable values: numbers are equal when their values are, so that
    [True == 1 == 1.0]. *)
Definition hashable (k : PyVal) : bool :=
  match k with
  | PList _ | PDict _ => false
  | _ => true
  end.

(** The value of a number. *)
Definition key_num (k : PyVal) : option Qc :=
  match k with
  | PBool b => Some (Qc_of_Z (if b then 1 else 0))
  | PInt n => Some (Qc_of_Z n)
  | PFloat x => Some x
  | _ => None
  end.

Definition key_eqb (a b : PyVal) : bool :=
  match a, b with
  | PNone, PNone => true
  | PStr s, PStr t => bool_decide (s = t)
  | _, _ =>
      match key_num a, key_num b with
      | Some x, Some y => bool_decide (x = y)
      | _, _ => false
      end
  end.

(** [d.get(k)], [None] when the key is absent. *)
Fixpoint dict_get (d : Dict) (k : PyVal) : option PyVal :=
  match d with
  | [] => None
  | (k', v) :: d' => if key_eqb k' k then Some v else dict_get d' k
  end.

(** The store of [d[k] = v] for a hashable [k]: an existing key keeps its
    place (and its key object) and takes the new value, a new key goes to
    the end. *)
Fixpoint dict_store (d : Dict) (k v : PyVal) : Dict :=
  match d with
  | [] => [(k, v)]
  | (k', v') :: d' =>
      if key_eqb k' k then (k', v) :: d' else (k', v') :: dict_store d' k v
  end.

(** [d[k] = v]: [TypeError] for an unhashable key. *)
Definition dict_setitem (d : Dict) (k v : PyVal) : result Dict :=
  if hashable k then Ok (dict_store d k v) else Raise TypeError.

(** [x[k]] for a string literal [k]: only a dictionary can be subscripted by
    a string; a missing key is a [KeyError]. *)
Definition py_getitem (x : PyVal) (k : string) : result PyVal :=
  match x with
  | PDict d =>
      match dict_get d (PStr k) with
      | Some v => Ok v
      | None => Raise KeyError
      end
  | _ => Raise TypeError
  end.

Fixpoint chars (s : string) : list PyVal :=
  match s with
  | EmptyString => []
  | String c s' => PStr (String c EmptyString) :: chars s'
  end.

(** The items a [for] loop visits: the elements of a list, the keys of a
    dictionary, the characters of a string; anything else is not iterable. *)
Definition py_iter (x : PyVal) : result (list PyVal) :=
  match x with
  | PList l => Ok l
  | PDict d => Ok (d.*1)
  | PStr s => Ok (chars s)
  | _ => Raise TypeError
  end.

(* ===================================================================== *)
(** ** WebSocketObserver: flattening the entities *)
(* ===================================================================== *)

(** The loop of [in_started]:
    [for ev in ...: intent_slots[ev["entity"]] = ev["value"]].
    Python evaluates the right-hand side first. *)
Fixpoint collect_slots (evs : list PyVal) (intent_slots : Dict) : result Dict :=
  match evs with
  | [] => Ok intent_slots
  | ev :: rest =>
      try! value := py_getitem ev "value" in
      try! name := py_getitem ev "entity" in
      try! intent_slots' := dict_setitem intent_slots name value in
      collect_slots rest intent_slots'
  end.

(** [message.intent.get("entities", [])] *)
Definition get_entities (intent : Dict) : PyVal :=
  default (PList []) (dict_get intent (PStr "entities")).

(** Lines 884-888: the intent with its ["slots"] entry set. *)
Definition add_slots (intent : Dict) : result Dict :=
  try! evs := py_iter (get_entities intent) in
  try! intent_slots := collect_slots evs [] in
  Ok (dict_store intent (PStr "slots") (PDict intent_slots)).

(* ===================================================================== *)
(** ** Process state *)
(* ===================================================================== *)

(** Websocket objects, [GQueue] objects and [RhasspyCore] instances are
    named by their identity. *)
Abbreviation Ws := nat (only parsing).
Abbreviation Qid := nat (only parsing).
Abbreviation EngineId := nat (only parsing).

(** What the model observes of one [RhasspyCore] instance: the settings
    given to [core.profile.set], and how often [core.start] and
    [core.shutdown] were invoked on it. *)
Record Engine : Type := mkEngine {
  e_settings : list (string * PyVal);
  e_started : nat;
  e_stopped : nat
}.

Record State : Type := mkState {
  core : option EngineId;            (* the global [core] *)
  engines : list Engine;             (* every RhasspyCore ever constructed *)
  ws_queues : list (gmap Ws Qid);    (* [ws_queues], one registry per event type *)
  queues : list (list string);       (* every GQueue ever constructed, pending texts *)
  environ : gmap string string       (* [os.environ] *)
}.

Definition set_core (c : option EngineId) (st : State) : State :=
  mkState c (engines st) (ws_queues st) (queues st) (environ st).
Definition set_engines (es : list Engine) (st : State) : State :=
  mkState (core st) es (ws_queues st) (queues st) (environ st).
Definition set_ws_queues (w : list (gmap Ws Qid)) (st : State) : State :=
  mkState (core st) (engines st) w (queues st) (environ st).
Definition set_queues (q : list (list string)) (st : State) : State :=
  mkState (core st) (engines st) (ws_queues st) q (environ st).
Definition set_environ (e : gmap string string) (st : State) : State :=
  mkState (core st) (engines st) (ws_queues st) (queues st) e.

(** [core = None], no engine, [ws_queues = [{}, {}]], no queue. *)
Definition init_state : State := mkState None [] [∅; ∅] [] ∅.

(** A computation over the process state that may raise; the state reached
    when an exception is raised is kept. *)
Definition M (A : Type) : Type := State -> State * result A.

Definition ret {A} (a : A) : M A := fun st => (st, Ok a).
Definition raise {A} (e : exn) : M A := fun st => (st, Raise e).
Definition bind {A B} (m : M A) (k : A -> M B) : M B :=
  fun st =>
    match m st with
    | (st', Ok a) => k a st'
    | (st', Raise e) => (st', Raise e)
    end.
Definition lift {A} (r : result A) : M A := fun st => (st, r).
Definition get_state : M State := fun st => (st, Ok st).
Definition modify (f : State -> State) : M unit := fun st => (f st, Ok tt).

Notation "'let*' x ':=' m 'in' k" := (bind m (fun x => k))
  (at level 10, x name, m at level 100, k at level 200).
Notation "m ';;' k" := (bind m (fun _ => k))
  (at level 100, k at level 200, right associativity).

Fixpoint for_each {A} (l : list A) (body : A -> M unit) : M unit :=
  match l with
  | [] => ret tt
  | x :: l' => body x ;; for_each l' body
  end.

(** [l[i]] for a Python list: a negative index counts from the end. *)
Definition py_index {A} (l : list A) (i : Z) : option nat :=
  let n := Z.of_nat (length l) in
  if bool_decide (0 <= i < n) then Some (Z.to_nat i)
  else if bool_decide (- n <= i < 0) then Some (Z.to_nat (i + n))
  else None.

(* ===================================================================== *)
(** ** WebSocket API: the event bus *)
(* ===================================================================== *)

Definition WS_EVENT_INTENT : Z := 0.
Definition WS_EVENT_LOG : Z := 1.

(** [queue.put(text)] on the queue object [q]. *)
Definition queue_put (text : string) (q : Qid) (h : list (list string))
  : list (list string) :=
  alter (fun pending => pending ++ [text]) q h.

(** [add_ws_event]: every queue found in the registry of [event_type] gets
    [text].  The locks and [gevent.sleep(0)] change nothing of the state. *)
Definition add_ws_event (event_type : Z) (text : string) : M unit :=
  fun st =>
    match py_index (ws_queues st) event_type with
    | None => (st, Raise IndexError)
    | Some i =>
        let registry := default ∅ (ws_queues st !! i) in
        (set_queues (foldr (queue_put text) (queues st)
                       ((map_to_list registry).*2)) st, Ok tt)
    end.

(** The first lines of [api_events_intent] and [api_events_log]:
    [q = GQueue()] and [ws_queues[event_type][ws] = q].  The new queue is
    returned: the handler keeps it in its local [q]. *)
Definition events_subscribe (event_type : Z) (ws : Ws) : M Qid :=
  fun st =>
    let q := length (queues st) in
    let st1 := set_queues (queues st ++ [[]]) st in
    match py_index (ws_queues st1) event_type with
    | None => (st1, Raise IndexError)
    | Some i =>
        (set_ws_queues (alter (fun registry => <[ws := q]> registry) i
                          (ws_queues st1)) st1, Ok q)
    end.

(** The last lines of both handlers: [del ws_queues[event_type][ws]], which
    raises [KeyError] when [ws] is not a key. *)
Definition events_unsubscribe (event_type : Z) (ws : Ws) : M unit :=
  fun st =>
    match py_index (ws_queues st) event_type with
    | None => (st, Raise IndexError)
    | Some i =>
        let registry := default ∅ (ws_queues st !! i) in
        match registry !! ws with
        | None => (st, Raise KeyError)
        | Some _ =>
            (set_ws_queues (alter (fun registry => delete ws registry) i
                              (ws_queues st)) st, Ok tt)
        end
    end.

(** [text = q.get()] in the session loop when a text is pending: the head of
    the queue is taken.  On an empty queue the greenlet stays blocked:
    [None], nothing changes. *)
Definition queue_get (q : Qid) : M (option string) :=
  fun st =>
    match queues st !! q with
    | Some (text :: pending) =>
        (set_queues (<[q := pending]> (queues st)) st, Ok (Some text))
    | _ => (st, Ok None)
    end.

(** [api_events_intent] and [api_events_log] are the same handler for the
    two event types: registration, the loop around [q.get()], removal. *)
Definition api_events_intent_enter (ws : Ws) : M Qid :=
  events_subscribe WS_EVENT_INTENT ws.
Definition api_events_intent_leave (ws : Ws) : M unit :=
  events_unsubscribe WS_EVENT_INTENT ws.
Definition api_events_log_enter (ws : Ws) : M Qid :=
  events_subscribe WS_EVENT_LOG ws.
Definition api_events_log_leave (ws : Ws) : M unit :=
  events_unsubscribe WS_EVENT_LOG ws.

(** *** Views of the bus used in the statements *)

(** The registry [ws_queues[i]]. *)
Definition registry (st : State) (i : nat) : gmap Ws Qid :=
  default ∅ (ws_queues st !! i).

(** [ws_queues[i].values()] *)
Definition subscribers (st : State) (i : nat) : list Qid :=
  (map_to_list (registry st i)).*2.

(** The queue object [q] is a value of [ws_queues[i]]. *)
Definition is_registered (st : State) (i : nat) (q : Qid) : bool :=
  bool_decide (q ∈ subscribers st i).

(** The texts waiting in the queue object [q]. *)
Definition pending (st : State) (q : Qid) : list string :=
  default [] (queues st !! q).

(** One step of a session handler or of a publisher.  Under gevent each of
    them runs to its end before another greenlet is scheduled. *)
Inductive BusOp : Type :=
  | Subscribe (event_type : Z) (ws : Ws)
  | Unsubscribe (event_type : Z) (ws : Ws)
  | Publish (event_type : Z) (text : string)
  | Get (q : Qid).

Definition run_op (op : BusOp) : M unit :=
  match op with
  | Subscribe event_type ws => events_subscribe event_type ws ;; ret tt
  | Unsubscribe event_type ws => events_unsubscribe event_type ws
  | Publish event_type text => add_ws_event event_type text
  | Get q => queue_get q ;; ret tt
  end.

(** A schedule: the steps run one after the other, each by its own
    greenlet, so an exception in one does not stop the next. *)
Fixpoint run (ops : list BusOp) (st : State) : State :=
  match ops with
  | [] => st
  | op :: ops' => run ops' (fst (run_op op st))
  end.

(** The texts that the steps [Get q] of a schedule take from [q], in order. *)
Fixpoint taken (q : Qid) (ops : list BusOp) (st : State) : list string :=
  match ops with
  | [] => []
  | op :: ops' =>
      match op with
      | Get q' =>
          if bool_decide (q' = q)
          then match snd (queue_get q st) with
               | Ok (Some text) => [text]
               | _ => []
               end
          else []
      | _ => []
      end ++ taken q ops' (fst (run_op op st))
  end.

(** The texts of those [Publish] steps of a schedule at whose moment [q] is
    registered in the registry published to, in order. *)
Fixpoint published_to (q : Qid) (ops : list BusOp) (st : State) : list string :=
  match ops with
  | [] => []
  | op :: ops' =>
      match op with
      | Publish event_type text =>
          match py_index (ws_queues st) event_type with
          | Some i => if is_registered st i q then [text] else []
          | None => []
          end
      | _ => []
      end ++ published_to q ops' (fst (run_op op st))
  end.

(* ===================================================================== *)
(** ** The rest of the process: engine, logging, HTTP *)
(* ===================================================================== *)

(** What a call into another module does as far as this file can see: the
    log lines it hands to the root logger, already formatted, and its
    result.  When the engine tells its observer of an intent, that is a
    step of its own ([in_started] below), run by the actor. *)
Record Call (A : Type) : Type := mkCall {
  logged : list string;
  returned : result A
}.
Arguments mkCall {A} logged returned.
Arguments logged {A} c.
Arguments returned {A} c.

Inductive Logger : Type := AppLogger | ObserverLogger.
Inductive Level : Type := DEBUG | INFO.

(** The code that is not in [app.py]. *)
Record External : Type := mkExternal {
  (* the standard library *)
  json_dumps : PyVal -> string;
  json_loads : string -> result PyVal;
  jsonify : PyVal -> string;
  getcwd : string;
  time_sec : PyVal;                       (* [time.time() - start_time] *)
  exn_text : exn -> string;               (* [str(err)] of a builtin exception *)
  (* rhasspy.utils.FunctionLoggingHandler: the text given to its function *)
  log_format : Logger -> Level -> string -> string;
  log_exception : Logger -> exn -> string;
  buffer_to_wav : string -> string;
  format_recorded : string -> string;     (* ["Recorded %s byte(s) of audio data"] *)
  (* the command line *)
  args_set : list (string * string);
  format_setting : string -> PyVal -> string;   (* ["Profile: {0}={1}"] *)
  (* rhasspy.core.RhasspyCore and the actor system *)
  core_new : EngineId -> Call unit;
  profile_name : EngineId -> string;
  profile_write_dir : EngineId -> string;
  create_observer : EngineId -> Call unit;
  core_start : EngineId -> Call unit;
  core_shutdown : EngineId -> Call unit;
  recognize_intent : EngineId -> string -> Call Dict;
  transcribe_wav : EngineId -> string -> Call (string * PyVal);
  stop_recording_wav : EngineId -> string -> Call string;
  handle_intent : EngineId -> Dict -> Call Dict;
  (* [requests.get] of [/api/ping] *)
  ping : Call unit
}.

Record Request : Type := mkRequest {
  data : string;
  args : gmap string string
}.

Record Response : Type := mkResponse {
  body : string;
  status : Z
}.

Inductive Message : Type :=
  | IntentRecognized (intent : Dict)
  | OtherMessage.

Definition lower_ascii (c : Ascii.ascii) : Ascii.ascii :=
  let n := Ascii.nat_of_ascii c in
  if ((65 <=? n) && (n <=? 90))%nat then Ascii.ascii_of_nat (n + 32) else c.

Fixpoint lower (s : string) : string :=
  match s with
  | EmptyString => EmptyString
  | String c s' => String (lower_ascii c) (lower s')
  end.

(** [request.args.get(name, "false").lower() == "true"] *)
Definition arg_is_true (req : Request) (name : string) : bool :=
  bool_decide (lower (default "false" (args req !! name)) = "true").

Definition update_engine (e : EngineId) (f : Engine -> Engine) : M unit :=
  modify (fun st => set_engines (alter f e (engines st)) st).

(** [core.shutdown()], [core.start()] counted once more on an engine
    record. *)
Definition stopped_once (r : Engine) : Engine :=
  mkEngine (e_settings r) (e_started r) (S (e_stopped r)).

Definition started_once (r : Engine) : Engine :=
  mkEngine (e_settings r) (S (e_started r)) (e_stopped r).

Section Process.

Variable X : External.

(** The handler that line 873 adds to the root logger. *)
Definition log_handler (msg : string) : M unit :=
  add_ws_event WS_EVENT_LOG msg.

(** [logger.debug(msg)], [logger.info(msg)], [logger.exception(err)]: the
    root logger passes every level (line 63), so each record reaches
    [log_handler]. *)
Definition logger_debug (msg : string) : M unit :=
  log_handler (log_format X AppLogger DEBUG msg).

Definition logger_info (msg : string) : M unit :=
  log_handler (log_format X AppLogger INFO msg).

Definition logger_exception (err : exn) : M unit :=
  log_handler (log_exception X AppLogger err).

(** A call into another module: its log lines reach the root logger, then
    it returns or raises. *)
Definition external {A} (c : Call A) : M A :=
  for_each (logged c) log_handler ;; lift (returned c).

(** [str(err)] *)
Definition str_exn (err : exn) : string :=
  match err with
  | AssertionError msg => msg
  | Exception msg => msg
  | _ => exn_text X err
  end.

(** *** Dialogue manager setup *)

(** [core.shutdown()] on the instance [e]. *)
Definition engine_shutdown (e : EngineId) : M unit :=
  update_engine e stopped_once ;;
  external (core_shutdown X e).

(** [core.start(observer=observer)] on the instance [e]. *)
Definition engine_start (e : EngineId) : M unit :=
  update_engine e started_once ;;
  external (core_start X e).

(** [core.profile.set(key, value)] on the instance [e]. *)
Definition profile_set (e : EngineId) (key : string) (value : PyVal) : M unit :=
  update_engine e (fun r => mkEngine (e_settings r ++ [(key, value)]) (e_started r) (e_stopped r)).

(** [RhasspyCore(...)]: a new instance, unless the constructor raises. *)
Definition new_engine : M EngineId :=
  let* st := get_state in
  let e := length (engines st) in
  external (core_new X e) ;;
  modify (set_engines (engines st ++ [mkEngine [] 0 0])) ;;
  ret e.

(** [shutdown], registered with [atexit]. *)
Definition shutdown : M unit :=
  let* st := get_state in
  match core st with
  | Some e =>
      engine_shutdown e ;;
      modify (set_core None)
  | None => ret tt
  end.

Definition setenv (name value : string) : M unit :=
  modify (fun st => set_environ (<[name := value]> (environ st)) st).

(** The body of the loop over [args.set]: the value is read as JSON when
    it is JSON and kept as text otherwise. *)
Definition apply_setting (e : EngineId) (kv : string * string) : M unit :=
  let key := fst kv in
  let value :=
    match json_loads X (snd kv) with
    | Ok v => v
    | Raise _ => PStr (snd kv)
    end in
  logger_debug (format_setting X key value) ;;
  profile_set e key value.

(** [start_rhasspy] *)
Definition start_rhasspy : M unit :=
  let* e := new_engine in
  modify (set_core (Some e)) ;;
  setenv "RHASSPY_BASE_DIR" (getcwd X) ;;
  setenv "RHASSPY_PROFILE" (profile_name X e) ;;
  setenv "RHASSPY_PROFILE_DIR" (profile_write_dir X e) ;;
  for_each (args_set X) (apply_setting e) ;;
  external (create_observer X e) ;;
  engine_start e ;;
  logger_info "Started".

(** *** HTTP API *)

(** [assert core is not None] *)
Definition assert_core : M EngineId :=
  let* st := get_state in
  match core st with
  | Some e => ret e
  | None => raise (AssertionError "")
  end.

Definition api_restart (req : Request) : M Response :=
  let* c := assert_core in
  logger_debug "Restarting Rhasspy" ;;
  engine_shutdown c ;;
  start_rhasspy ;;
  logger_info "Restarted Rhasspy" ;;
  ret (mkResponse "Restarted Rhasspy" 200).

(** The end shared by the three intent handlers: publish the intent, hand
    it to Home Assistant unless [nohass], answer with it. *)
Definition publish_and_handle (c : EngineId) (no_hass : bool) (intent : Dict)
  : M Response :=
  let intent_json := json_dumps X (PDict intent) in
  logger_debug intent_json ;;
  add_ws_event WS_EVENT_INTENT intent_json ;;
  let* intent :=
    (if no_hass then ret intent else external (handle_intent X c intent)) in
  ret (mkResponse (jsonify X (PDict intent)) 200).

Definition api_text_to_intent (req : Request) : M Response :=
  let* c := assert_core in
  let text := data req in
  let no_hass := arg_is_true req "nohass" in
  let* intent := external (recognize_intent X c text) in
  let intent := dict_store intent (PStr "speech_confidence") (PInt 1) in
  let intent := dict_store intent (PStr "time_sec") (time_sec X) in
  publish_and_handle c no_hass intent.

Definition api_speech_to_intent (req : Request) : M Response :=
  let* c := assert_core in
  let no_hass := arg_is_true req "nohass" in
  let wav_data := data req in
  let* transcription := external (transcribe_wav X c wav_data) in
  let text := fst transcription in
  logger_debug text ;;
  let* intent := external (recognize_intent X c text) in
  let intent := dict_store intent (PStr "speech_confidence") (snd transcription) in
  let intent := dict_store intent (PStr "time_sec") (time_sec X) in
  publish_and_handle c no_hass intent.

Definition api_stop_recording (req : Request) : M Response :=
  let* c := assert_core in
  let no_hass := arg_is_true req "nohass" in
  let buffer_name := default "" (args req !! "name") in
  let* audio_data := external (stop_recording_wav X c buffer_name) in
  let wav_data := buffer_to_wav X audio_data in
  logger_debug (format_recorded X wav_data) ;;
  let* transcription := external (transcribe_wav X c wav_data) in
  let text := fst transcription in
  logger_debug text ;;
  let* intent := external (recognize_intent X c text) in
  let intent := dict_store intent (PStr "speech_confidence") (snd transcription) in
  publish_and_handle c no_hass intent.

(** [api_speech_to_text] *)
Definition api_speech_to_text (req : Request) : M Response :=
  let no_header := arg_is_true req "noheader" in
  let* c := assert_core in
  let wav_data := if no_header then buffer_to_wav X (data req) else data req in
  let* transcription := external (transcribe_wav X c wav_data) in
  ret (mkResponse (fst transcription) 200).

(** The shape of every other handler that reads [core]: the assertion
    (after the reading of a request argument in [api_train] and
    [api_text_to_speech]), then a body that works on files and on the
    engine and logs, and never calls [add_ws_event] itself. *)
Definition api_other (view : EngineId -> Request -> Call Response) (req : Request)
  : M Response :=
  let* c := assert_core in
  external (view c req).

(** [api_ping]; the static routes too answer without reading or changing
    the state. *)
Definition api_ping (req : Request) : M Response :=
  ret (mkResponse "pong" 200).

(** [handle_error], the [errorhandler(Exception)] of the application. *)
Definition handle_error (err : exn) : M Response :=
  logger_exception err ;;
  ret (mkResponse (str_exn err) 500).

(** Flask calling a view: an exception of the view goes to [handle_error]. *)
Definition dispatch (view : Request -> M Response) (req : Request) : M Response :=
  fun st =>
    match view req st with
    | (st', Ok r) => (st', Ok r)
    | (st', Raise err) => handle_error err st'
    end.

(** *** WebSocketObserver *)

(** [in_started].  The result is the message as the function leaves it:
    [message.intent] is changed in place. *)
Definition in_started (message : Message) : M Message :=
  match message with
  | IntentRecognized intent =>
      let* intent := lift (add_slots intent) in
      let intent_json := json_dumps X (PDict intent) in
      log_handler (log_format X ObserverLogger DEBUG intent_json) ;;
      add_ws_event WS_EVENT_INTENT intent_json ;;
      external (ping X) ;;
      ret (IntentRecognized intent)
  | OtherMessage => ret OtherMessage
  end.

(** *** Who runs what *)

Inductive Route : Type :=
  | ApiRestart
  | ApiTextToIntent
  | ApiSpeechToIntent
  | ApiStopRecording
  | ApiSpeechToText
  | ApiOther (view : EngineId -> Request -> Call Response)
  | ApiPing.

Definition view_of (r : Route) : Request -> M Response :=
  match r with
  | ApiRestart => api_restart
  | ApiTextToIntent => api_text_to_intent
  | ApiSpeechToIntent => api_speech_to_intent
  | ApiStopRecording => api_stop_recording
  | ApiSpeechToText => api_speech_to_text
  | ApiOther view => api_other view
  | ApiPing => api_ping
  end.

(** The routes whose view reads the global [core]. *)
Definition reads_core (r : Route) : bool :=
  match r with
  | ApiPing => false
  | _ => true
  end.

(** Everything that runs code of [app.py] once the server is up. *)
Inductive Activity : Type :=
  | EngineNotifies (message : Message)      (* the engine tells the observer *)
  | LogLine (msg : string)                  (* a record reaches the root logger *)
  | HttpRequest (r : Route) (req : Request)
  | SessionOpens (event_type : Z) (ws : Ws)  (* a websocket handler starts *)
  | SessionGets (q : Qid)                   (* ... takes a text from its queue *)
  | SessionCloses (event_type : Z) (ws : Ws) (* ... and ends *)
  | AtExit.                                 (* the atexit hook *)

Definition perform (a : Activity) : M unit :=
  match a with
  | EngineNotifies message => in_started message ;; ret tt
  | LogLine msg => log_handler msg
  | HttpRequest r req => dispatch (view_of r) req ;; ret tt
  | SessionOpens event_type ws => run_op (Subscribe event_type ws)
  | SessionGets q => run_op (Get q)
  | SessionCloses event_type ws => run_op (Unsubscribe event_type ws)
  | AtExit => shutdown
  end.

(** The activities that come from the engine's notification of its
    observer. *)
Definition from_engine (a : Activity) : bool :=
  match a with
  | EngineNotifies _ => true
  | _ => false
  end.

(** The activities with a call [add_ws_event(WS_EVENT_INTENT, ...)] in their
    code. *)
Definition publishes_intent (a : Activity) : bool :=
  match a with
  | EngineNotifies _ => true
  | HttpRequest ApiTextToIntent _ => true
  | HttpRequest ApiSpeechToIntent _ => true
  | HttpRequest ApiStopRecording _ => true
  | _ => false
  end.

End Process.

(* ===================================================================== *)
(** ** A small environment to run the definitions *)
(* ===================================================================== *)

Definition quote : string := String (Ascii.ascii_of_nat 34) EmptyString.

Definition join (sep : string) (parts : list string) : string :=
  match parts with
  | [] => EmptyString
  | p :: ps => foldl (fun acc x => acc +:+ sep +:+ x) p ps
  end.

(** A plain rendering of a value as JSON text; it does not escape. *)
Fixpoint show (v : PyVal) : string :=
  match v with
  | PNone => "null"
  | PBool b => if b then "true" else "false"
  | PInt n => pretty n
  | PFloat x => pretty (Qnum x) +:+ "/" +:+ pretty (Zpos (Qden x))
  | PStr s => quote +:+ s +:+ quote
  | PList l => "[" +:+ join ", " (map show l) +:+ "]"
  | PDict d =>
      "{" +:+ join ", " (map (fun kv =>
                 match kv with
                 | (PStr s, x) => quote +:+ s +:+ quote +:+ ": " +:+ show x
                 | (k, x) => quote +:+ show k +:+ quote +:+ ": " +:+ show x
                 end) d) +:+ "}"
  end.

Definition silent {A} (a : A) : Call A := mkCall [] (Ok a).

(** An engine that never fails and never logs. *)
Definition calm : External := {|
  json_dumps := show;
  json_loads := fun _ => Raise (Exception "not JSON");
  jsonify := show;
  getcwd := "/";
  time_sec := PInt 0;
  exn_text := fun _ => "error";
  log_format := fun _ _ msg => msg;
  log_exception := fun _ _ => "exception";
  buffer_to_wav := fun b => b;
  format_recorded := fun _ => "Recorded audio data";
  args_set := [];
  format_setting := fun k _ => k;
  core_new := fun _ => silent tt;
  profile_name := fun _ => "en";
  profile_write_dir := fun _ => "/profiles/en";
  create_observer := fun _ => silent tt;
  core_start := fun _ => silent tt;
  core_shutdown := fun _ => silent tt;
  recognize_intent := fun _ text =>
    silent [(PStr "text", PStr text); (PStr "entities", PList [])];
  transcribe_wav := fun _ _ => silent ("turn on the light", PInt 1);
  stop_recording_wav := fun _ _ => silent "";
  handle_intent := fun _ intent => silent intent;
  ping := silent tt
|}.

(** The same, with an engine whose stop sequence raises. *)
Definition stubborn : External := {|
  json_dumps := show;
  json_loads := fun _ => Raise (Exception "not JSON");
  jsonify := show;
  getcwd := "/";
  time_sec := PInt 0;
  exn_text := fun _ => "error";
  log_format := fun _ _ msg => msg;
  log_exception := fun _ _ => "exception";
  buffer_to_wav := fun b => b;
  format_recorded := fun _ => "Recorded audio data";
  args_set := [];
  format_setting := fun k _ => k;
  core_new := fun _ => silent tt;
  profile_name := fun _ => "en";
  profile_write_dir := fun _ => "/profiles/en";
  create_observer := fun _ => silent tt;
  core_start := fun _ => silent tt;
  core_shutdown := fun _ => mkCall [] (Raise (Exception "audio device busy"));
  recognize_intent := fun _ text =>
    silent [(PStr "text", PStr text); (PStr "entities", PList [])];
  transcribe_wav := fun _ _ => silent ("turn on the light", PInt 1);
  stop_recording_wav := fun _ _ => silent "";
  handle_intent := fun _ intent => silent intent;
  ping := silent tt
|}.

(** The state once the module is loaded: [start_rhasspy()] on line 939. *)
Definition running (X : External) : State := fst (start_rhasspy X init_state).

(** An intent with two entities of the same name. *)
Definition entity (name value : string) : PyVal :=
  PDict [(PStr "entity", PStr name); (PStr "value", PStr value)].

Definition demo_intent : Dict :=
  [(PStr "intent", PDict [(PStr "name", PStr "ChangeLightState")]);
   (PStr "entities",
    PList [entity "name" "lamp"; entity "state" "on"; entity "name" "tv"])].

(** The engine is up, websocket 7 listens to intents (queue 0) and
    websocket 8 to the log (queue 1). *)
Definition listening (X : External) : State :=
  run [Subscribe WS_EVENT_INTENT 7; Subscribe WS_EVENT_LOG 8] (running X).

Definition empty_request : Request := mkRequest EmptyString ∅.

(* ===================================================================== *)
(** ** Predicates of the statements *)
(* ===================================================================== *)

(** An entity as the recognizers build it: a dictionary with a ["value"]
    and a hashable ["entity"]. *)
Definition entity_ok (ev : PyVal) : bool :=
  match ev with
  | PDict d =>
      match dict_get d (PStr "value"), dict_get d (PStr "entity") with
      | Some _, Some name => hashable name
      | _, _ => false
      end
  | _ => false
  end.

(** The entities of an intent can be flattened. *)
Definition entities_ok (intent : Dict) : bool :=
  match py_iter (get_entities intent) with
  | Ok evs => forallb entity_ok evs
  | Raise _ => false
  end.

Definition entity_field (field : string) (ev : PyVal) : PyVal :=
  match ev with
  | PDict d => default PNone (dict_get d (PStr field))
  | _ => PNone
  end.

(** The value of the last entity of [evs] that is named [name]. *)
Definition last_value (evs : list PyVal) (name : PyVal) : option PyVal :=
  foldl (fun found ev =>
           if key_eqb (entity_field "entity" ev) name
           then Some (entity_field "value" ev) else found)
        None evs.

(** The entries of a dictionary under the key [name]. *)
Definition entries_for (d : Dict) (name : PyVal) : list (PyVal * PyVal) :=
  List.filter (fun kv => key_eqb (fst kv) name) d.

(** The invariant of the bus: there are two registries, a registered queue
    exists, and no queue object is registered twice. *)
Definition bus_inv (st : State) : Prop :=
  length (ws_queues st) = 2%nat ∧
  (∀ i ws q, registry st i !! ws = Some q → (q < length (queues st))%nat) ∧
  (∀ i j ws ws' q,
      registry st i !! ws = Some q → registry st j !! ws' = Some q →
      i = j ∧ ws = ws').

(** The registries resolved by the two event types. *)
Definition INTENT : nat := 0.
Definition LOG : nat := 1.

(** [st'] differs from [st] on the bus by log lines only: the registries are
    the same, no waiting text is lost or reordered, and only queues of the
    log registry have grown. *)
Definition quiet (st st' : State) : Prop :=
  ws_queues st' = ws_queues st ∧
  length (queues st') = length (queues st) ∧
  (∀ q, pending st q `prefix_of` pending st' q) ∧
  (∀ q, is_registered st LOG q = false → pending st' q = pending st q).

(** [st'] differs from [st] by log lines only. *)
Definition logs_only (st st' : State) : Prop :=
  core st' = core st ∧ engines st' = engines st ∧ environ st' = environ st ∧
  quiet st st'.

(** [st'] differs from [st] by log lines and by the settings of the engine
    instance [e]. *)
Definition configures (e : EngineId) (st st' : State) : Prop :=
  core st' = core st ∧
  length (engines st') = length (engines st) ∧
  (∀ e', e' ≠ e → engines st' !! e' = engines st !! e') ∧
  (∀ r, engines st !! e = Some r →
        ∃ r', engines st' !! e = Some r' ∧
              e_started r' = e_started r ∧ e_stopped r' = e_stopped r) ∧
  quiet st st'.

(** A computation that, from a state of the bus invariant, ends (returning
    or raising) in a state related to the first by [R]. *)
Definition respects (R : State -> State -> Prop) {A} (m : M A) : Prop :=
  ∀ st, bus_inv st → R st (fst (m st)).


(** What a call into another module gives back to its caller. *)
Definition outcome {A B} (c : Call A) (b : B) : result B :=
  match returned c with
  | Ok _ => Ok b
  | Raise err => Raise err
  end.

(* ===================================================================== *)
(** ** Further predicates *)
(* ===================================================================== *)

(** [st'] has the registries of [st], as many queue objects, and in every
    queue what was waiting, followed by what came since. *)
Definition steady (st st' : State) : Prop :=
  ws_queues st' = ws_queues st ∧
  length (queues st') = length (queues st) ∧
  (∀ q, pending st q `prefix_of` pending st' q).

(** The steps of a websocket session. *)
Definition is_session (a : Activity) : bool :=
  match a with
  | SessionOpens _ _ | SessionGets _ | SessionCloses _ _ => true
  | _ => false
  end.


(** The value that [start_rhasspy] gives to [core.profile.set] for one
    [--set] pair. *)
Definition setting_value (X : External) (kv : string * string) : PyVal :=
  match json_loads X (snd kv) with
  | Ok v => v
  | Raise _ => PStr (snd kv)
  end.

(** The intent as [api_text_to_intent] publishes it. *)
Definition timed_intent (X : External) (intent : Dict) : Dict :=
  dict_store (dict_store intent (PStr "speech_confidence") (PInt 1))
    (PStr "time_sec") (time_sec X).

(** An engine that logs two lines when it is stopped. *)
Definition chatty_call : Call unit :=
  mkCall ["Stopping actors"; "Actor system stopped"] (Ok tt).

(** [ks] with the key [k] added at the end unless an equal key is there. *)
Definition add_key (ks : list PyVal) (k : PyVal) : list PyVal :=
  if existsb (fun k' => key_eqb k' k) ks then ks else ks ++ [k].

(** An intent whose second entity has no value. *)
Definition broken_intent : Dict :=
  [(PStr "entities",
    PList [entity "name" "lamp"; PDict [(PStr "entity", PStr "state")]])].

(** How [start_rhasspy] ends for the instance [e]: as the first of the
    constructor, the observer setup and the start sequence that raises, or
    normally. *)
Definition start_outcome (X : External) (e : EngineId) : result unit :=
  try! _ := returned (core_new X e) in
  try! _ := returned (create_observer X e) in
  try! _ := returned (core_start X e) in
  Ok tt.

(** The settings of the command line, as [core.profile.set] gets them. *)
Definition command_line_settings (X : External) : list (string * PyVal) :=
  (fun kv => (fst kv, setting_value X kv)) <$> args_set X.

(** The environment after [start_rhasspy] has set its three variables for
    the instance [e]. *)
Definition started_environ (X : External) (e : EngineId) (env : gmap string string)
  : gmap string string :=
  <["RHASSPY_PROFILE_DIR" := profile_write_dir X e]>
    (<["RHASSPY_PROFILE" := profile_name X e]>
       (<["RHASSPY_BASE_DIR" := getcwd X]> env)).

(** An environment with two settings on the command line, one of them
    JSON, and a second one whose engine cannot be constructed twice. *)
Definition configured : External := {|
  json_dumps := show;
  json_loads := fun s =>
    if bool_decide (s = "12101") then Ok (PInt 12101)
    else Raise (Exception "not JSON");
  jsonify := show;
  getcwd := "/";
  time_sec := PInt 0;
  exn_text := fun _ => "error";
  log_format := fun _ _ msg => msg;
  log_exception := fun _ _ => "exception";
  buffer_to_wav := fun b => b;
  format_recorded := fun _ => "Recorded audio data";
  args_set := [("mqtt.port", "12101"); ("wake.system", "dummy")];
  format_setting := fun k _ => k;
  core_new := fun e =>
    if bool_decide (e = 0%nat) then silent tt
    else mkCall ["No such profile"] (Raise (Exception "No such profile"));
  profile_name := fun _ => "en";
  profile_write_dir := fun _ => "/profiles/en";
  create_observer := fun _ => silent tt;
  core_start := fun _ => silent tt;
  core_shutdown := fun _ => chatty_call;
  recognize_intent := fun _ text =>
    silent [(PStr "text", PStr text); (PStr "entities", PList [])];
  transcribe_wav := fun _ _ => silent ("turn on the light", PInt 1);
  stop_recording_wav := fun _ _ => silent EmptyString;
  handle_intent := fun _ intent =>
    mkCall [] (Raise (Exception "Home Assistant is down"));
  ping := silent tt
|}.

(* ===================================================================== *)
(** ** Text *)
(* ===================================================================== *)

(** A Python [str] is a Rocq string here, one character for each, so that
    the characters are those below 256.  On these, the tables below are
    the ones of [str.isspace], [str.splitlines] and [str.lower]. *)

Definition code (c : Ascii.ascii) : nat := Ascii.nat_of_ascii c.

(** [c.isspace()] *)
Definition is_space (c : Ascii.ascii) : bool :=
  let n := code c in
  (((9 <=? n) && (n <=? 13)) || ((28 <=? n) && (n <=? 32))
   || (n =? 133) || (n =? 160))%nat.

(** The characters at which [str.splitlines] ends a line. *)
Definition is_line_end (c : Ascii.ascii) : bool :=
  let n := code c in
  (((10 <=? n) && (n <=? 13)) || ((28 <=? n) && (n <=? 30)) || (n =? 133))%nat.

Definition not_line_end (c : Ascii.ascii) : bool := negb (is_line_end c).

Definition newline : string := String (Ascii.ascii_of_nat 10) EmptyString.

Fixpoint lstrip (s : string) : string :=
  match s with
  | EmptyString => EmptyString
  | String c s' => if is_space c then lstrip s' else s
  end.

Fixpoint rstrip (s : string) : string :=
  match s with
  | EmptyString => EmptyString
  | String c s' =>
      match rstrip s' with
      | EmptyString => if is_space c then EmptyString else String c EmptyString
      | r => String c r
      end
  end.

(** [s.strip()] *)
Definition strip (s : string) : string := rstrip (lstrip s).

(** [s.splitlines()], with [line] the part of the current line read so
    far: a line ends at a line end, the two characters CR LF being one,
    and an empty rest adds no line. *)
Fixpoint lines_from (line : string) (s : string) : list string :=
  match s with
  | EmptyString =>
      match line with
      | EmptyString => []
      | _ => [line]
      end
  | String c s' =>
      if (code c =? 13)%nat then
        match s' with
        | String c' s'' =>
            if (code c' =? 10)%nat then line :: lines_from EmptyString s''
            else line :: lines_from EmptyString s'
        | EmptyString => [line]
        end
      else if is_line_end c then line :: lines_from EmptyString s'
      else lines_from (line +:+ String c EmptyString) s'
  end.

Definition splitlines (s : string) : list string := lines_from EmptyString s.

(** [s.lower()] *)
Definition lower_char (c : Ascii.ascii) : Ascii.ascii :=
  let n := code c in
  if (((65 <=? n) && (n <=? 90))
      || ((192 <=? n) && (n <=? 222) && negb (n =? 215)))%nat
  then Ascii.ascii_of_nat (n + 32) else c.

Fixpoint py_lower (s : string) : string :=
  match s with
  | EmptyString => EmptyString
  | String c s' => String (lower_char c) (py_lower s')
  end.

Definition is_blank (c : Ascii.ascii) : bool := (code c =? 32)%nat.

Fixpoint drop_blanks (s : string) : string :=
  match s with
  | EmptyString => EmptyString
  | String c s' => if is_blank c then drop_blanks s' else s
  end.

(** [re.split(r"[ ]+", line, maxsplit=1)]: the line cut at its first run of
    blanks, or whole when it has no blank. *)
Fixpoint split_at_blanks (line : string) : list string :=
  match line with
  | EmptyString => [EmptyString]
  | String c s' =>
      if is_blank c then [EmptyString; drop_blanks s']
      else match split_at_blanks s' with
           | w :: rest => String c w :: rest
           | [] => []
           end
  end.

(* ===================================================================== *)
(** ** More HTTP handlers *)
(* ===================================================================== *)

Inductive TrainResult : Type :=
  | ProfileTrainingFailed (reason : string)
  | ProfileTrained.

(** What these handlers use of the engine, of the files and of the
    standard library. *)
Record Services : Type := mkServices {
  speak_sentence : EngineId -> string -> Call unit;
  get_word_pronunciations : EngineId -> string -> Z -> Call Dict;
  int_of : string -> result Z;                   (* [int(s)] *)
  train : EngineId -> Call TrainResult;          (* [gevent.spawn(core.train).get()] *)
  cache_exists : EngineId -> bool;               (* the file [.doit.db] of the profile *)
  unlink_cache : EngineId -> result unit;
  completed_text : string;                       (* ["Training completed in ..."] *)
  unknown_words_lines : EngineId -> option (list string);
  wrote_text : nat -> string                     (* ["Wrote %s line(s) to %s"] *)
}.

Section MoreHandlers.

Variable X : External.
Variable V : Services.

(** [api_text_to_speech].  The global [last_sentence] comes in and goes
    out beside the state. *)
Definition api_text_to_speech (req : Request) (last_sentence : string)
  : State -> State * result Response * string :=
  fun st =>
    let repeat :=
      bool_decide (lower (strip (default "false" (args req !! "repeat"))) = "true") in
    let sentence := if repeat then last_sentence else strip (data req) in
    match (let* c := assert_core in
           external (speak_sentence V c sentence)) st with
    | (st', Ok _) => (st', Ok (mkResponse sentence 200), sentence)
    | (st', Raise err) => (st', Raise err, last_sentence)
    end.

(** [assert cond, msg] *)
Definition assert_that (cond : bool) (msg : string) : M unit :=
  if cond then ret tt else raise (AssertionError msg).

(** [api_lookup] *)
Definition api_lookup (req : Request) : M Response :=
  let* c := assert_core in
  let* n :=
    match args req !! "n" with
    | Some v => lift (int_of V v)
    | None => ret 5
    end in
  assert_that (bool_decide (n > 0)) "No pronunciations requested" ;;
  let word := py_lower (strip (data req)) in
  assert_that (negb (bool_decide (word = EmptyString))) "No word to look up" ;;
  let* pronunciations := external (get_word_pronunciations V c word n) in
  let* found := lift (py_getitem (PDict pronunciations) word) in
  ret (mkResponse (jsonify X found) 200).

(** [api_train] *)
Definition api_train (req : Request) : M Response :=
  let no_cache := arg_is_true req "nocache" in
  let* c := assert_core in
  (if no_cache && cache_exists V c
   then logger_debug X "Clearing training cache" ;; lift (unlink_cache V c)
   else ret tt) ;;
  logger_info X "Starting training" ;;
  let* result := external (train V c) in
  match result with
  | ProfileTrainingFailed reason => raise (Exception ("Training failed: " +:+ reason))
  | ProfileTrained => ret (mkResponse (completed_text V) 200)
  end.

(** The loop of [api_unknown_words] over the lines of the file.  A line
    with one word only cannot be unpacked: [ValueError], an [Exception]
    with this text. *)
Fixpoint read_unknown_words (lines : list string) (unknown_words : Dict)
  : result Dict :=
  match lines with
  | [] => Ok unknown_words
  | line :: rest =>
      let line := strip line in
      if bool_decide (line = EmptyString) then read_unknown_words rest unknown_words
      else match split_at_blanks line with
           | [word; pronunciation] =>
               read_unknown_words rest
                 (dict_store unknown_words (PStr word) (PStr pronunciation))
           | _ => Raise (Exception "not enough values to unpack (expected 2, got 1)")
           end
  end.

(** [api_unknown_words] *)
Definition api_unknown_words (req : Request) : M Response :=
  let* c := assert_core in
  let* unknown_words :=
    match unknown_words_lines V c with
    | Some lines => lift (read_unknown_words lines [])
    | None => ret []
    end in
  ret (mkResponse (jsonify X (PDict unknown_words)) 200).

(** The loop of [api_custom_words] for a POST: what is printed to the file
    and the count of lines. *)
Fixpoint write_custom_words (lines : list string) (file : string) (lines_written : nat)
  : string * nat :=
  match lines with
  | [] => (file, lines_written)
  | line :: rest =>
      let line := strip line in
      if bool_decide (line = EmptyString)
      then write_custom_words rest file lines_written
      else write_custom_words rest (file +:+ line +:+ newline) (S lines_written)
  end.

(** [api_custom_words] for a POST: the file is opened for writing, so what
    it held is gone; the result is the answer and the new file. *)
Definition api_custom_words_post (req : Request) : M (Response * string) :=
  let* c := assert_core in
  let written := write_custom_words (splitlines (data req)) EmptyString 0 in
  ret (mkResponse (wrote_text V (snd written)) 200, fst written).

End MoreHandlers.

(** Services that do what is asked and say nothing. *)
Definition helpful : Services := {|
  speak_sentence := fun _ _ => silent tt;
  get_word_pronunciations := fun _ word _ =>
    silent [(PStr word, PList [PStr "HH AH L OW"])];
  int_of := fun s => if bool_decide (s = "0") then Ok 0 else Ok 1;
  train := fun _ => silent (ProfileTrainingFailed "missing sentences file");
  cache_exists := fun _ => false;
  unlink_cache := fun _ => Ok tt;
  completed_text := "Training completed";
  unknown_words_lines := fun _ => Some ["raxacoricofallapatorius"];
  wrote_text := fun n => "Wrote " +:+ pretty n +:+ " line(s)"
|}.

(** Every character of [s] satisfies [p]. *)
Fixpoint all_chars (p : Ascii.ascii -> bool) (s : string) : bool :=
  match s with
  | EmptyString => true
  | String c s' => p c && all_chars p s'
  end.

(** [s] has a blank. *)
Definition has_blank (s : string) : bool :=
  negb (all_chars (fun c => negb (is_blank c)) s).

(** The number that [api_lookup] reads from its request. *)
Definition lookup_count (V : Services) (req : Request) : result Z :=
  match args req !! "n" with
  | Some v => int_of V v
  | None => Ok 5
  end.

(** The lines that [api_custom_words] keeps. *)
Definition kept_lines (lines : list string) : list string :=
  List.filter (fun line => negb (bool_decide (line = EmptyString))) (strip <$> lines).

Fixpoint unlines (lines : list string) : string :=
  match lines with
  | [] => EmptyString
  | line :: rest => line +:+ newline +:+ unlines rest
  end.

Definition repeat_request : Request := mkRequest "ignored" {["repeat" := " True "]}.

(** A run of [k] blanks. *)
Fixpoint blanks (k : nat) : string :=
  match k with
  | O => EmptyString
  | S k' => String (Ascii.ascii_of_nat 32) (blanks k')
  end.

(** A line that [api_unknown_words] can read: empty once stripped, or with
    a blank inside. *)
Definition readable (line : string) : bool :=
  bool_decide (strip line = EmptyString) || has_blank (strip line).

(** The first part of a line of the file of unknown words. *)
Definition word_of (line : string) : string :=
  hd EmptyString (split_at_blanks (strip line)).

Definition words_request : Request :=
  mkRequest ("  foo F UW " +:+ newline +:+ newline +:+ "bar B AA R") ∅.

Definition no_pronunciations : Request := mkRequest "hello" {["n" := "0"]}.

(* ===================================================================== *)
(** ** The files of slot values *)
(* ===================================================================== *)

(** [type(v).__name__] *)
Definition type_name (v : PyVal) : string :=
  match v with
  | PNone => "NoneType"
  | PBool _ => "bool"
  | PInt _ => "int"
  | PFloat _ => "float"
  | PStr _ => "str"
  | PList _ => "list"
  | PDict _ => "dict"
  end.

(** The inner loop of [api_slots] for a POST: what is printed to the file
    of one slot.  A value that is no string has no [strip]:
    [AttributeError], an [Exception] with this text; the file keeps what
    was printed before. *)
Fixpoint print_slot_values (values : list PyVal) (file : string)
  : string * result unit :=
  match values with
  | [] => (file, Ok tt)
  | PStr value :: rest =>
      let value := strip value in
      if bool_decide (value = EmptyString) then print_slot_values rest file
      else print_slot_values rest (file +:+ value +:+ newline)
  | other :: _ =>
      (file, Raise (Exception ("'" +:+ type_name other +:+
                               "' object has no attribute 'strip'")))
  end.

(** The file of one slot after the body of the outer loop of [api_slots]:
    a string stands for the list of that string, the file is opened,
    which empties it, and the values are printed. *)
Definition write_slot_file (values : PyVal) : string * result unit :=
  match values with
  | PStr _ => print_slot_values [values] EmptyString
  | PList items => print_slot_values items EmptyString
  | PDict entries => print_slot_values (entries.*1) EmptyString
  | _ => (EmptyString, Raise TypeError)
  end.

(** What [api_slots] reads from the file of one slot for a GET. *)
Definition read_slot_file (text : string) : list string :=
  strip <$> splitlines text.

(* ===================================================================== *)
(** ** Dictionaries and the flattening of entities *)
(* ===================================================================== *)

Lemma key_eqb_sym a b : key_eqb a b = key_eqb b a.
Proof.
  destruct a, b; simpl; try done;
    repeat case_bool_decide; try done; congruence.
Qed.

Lemma key_eqb_trans a b c :
  key_eqb a b = true → key_eqb b c = true → key_eqb a c = true.
Proof.
  destruct a, b, c; simpl; try done;
    repeat case_bool_decide; try done; congruence.
Qed.

Lemma key_eqb_congr a b c :
  key_eqb a b = true → key_eqb a c = key_eqb b c.
Proof.
  intros Hab. destruct (key_eqb b c) eqn:Hbc.
  - by eapply key_eqb_trans.
  - destruct (key_eqb a c) eqn:Hac; [|done].
    rewrite key_eqb_sym in Hab.
    by rewrite (key_eqb_trans b a c Hab Hac) in Hbc.
Qed.

Lemma dict_get_store d k v n :
  dict_get (dict_store d k v) n =
  if key_eqb k n then Some v else dict_get d n.
Proof.
  induction d as [|[k' v'] d IH]; simpl; [done|].
  destruct (key_eqb k' k) eqn:Hk; simpl.
  - rewrite (key_eqb_congr k' k n) by done. by destruct (key_eqb k n).
  - rewrite IH. destruct (key_eqb k' n) eqn:Hn; [|done].
    destruct (key_eqb k n) eqn:Hkn; [|done].
    rewrite key_eqb_sym in Hkn.
    by rewrite (key_eqb_trans k' n k Hn Hkn) in Hk.
Qed.

Lemma entries_for_store d k v n :
  hashable k = true →
  length (entries_for (dict_store d k v) n) =
  if key_eqb k n then Nat.max 1 (length (entries_for d n))
  else length (entries_for d n).
Proof.
  intros Hk. unfold entries_for.
  induction d as [|[k' v'] d IH]; simpl.
  - destruct (key_eqb k n); done.
  - destruct (key_eqb k' k) eqn:Hk'; simpl.
    + rewrite (key_eqb_congr k' k n Hk').
      destruct (key_eqb k n); simpl; [lia|done].
    + destruct (key_eqb k' n) eqn:Hn; simpl; rewrite IH;
        destruct (key_eqb k n) eqn:Hkn; try done.
      rewrite key_eqb_sym in Hkn.
      by rewrite (key_eqb_trans k' n k Hn Hkn) in Hk'.
Qed.

Lemma entity_ok_getitem ev :
  entity_ok ev = true →
  py_getitem ev "value" = Ok (entity_field "value" ev) ∧
  py_getitem ev "entity" = Ok (entity_field "entity" ev) ∧
  hashable (entity_field "entity" ev) = true.
Proof.
  destruct ev as [| | | | | |d]; try done. simpl.
  destruct (dict_get d (PStr "value")); [|done].
  destruct (dict_get d (PStr "entity")); done.
Qed.

(** The loop of [in_started], from any dictionary [acc]. *)
Lemma collect_slots_spec evs acc :
  forallb entity_ok evs = true →
  ∃ slots, collect_slots evs acc = Ok slots ∧
    ∀ n,
      dict_get slots n =
        foldl (fun found ev =>
                 if key_eqb (entity_field "entity" ev) n
                 then Some (entity_field "value" ev) else found)
              (dict_get acc n) evs ∧
      ((length (entries_for acc n) ≤ 1)%nat →
       (length (entries_for slots n) ≤ 1)%nat).
Proof.
  revert acc. induction evs as [|ev evs IH]; intros acc Hok; simpl in *.
  - eauto.
  - apply andb_prop in Hok as [Hev Hevs].
    destruct (entity_ok_getitem ev Hev) as (-> & -> & Hh). simpl.
    unfold dict_setitem. rewrite Hh. simpl.
    destruct (IH (dict_store acc (entity_field "entity" ev)
                    (entity_field "value" ev)) Hevs) as (slots & -> & Hs).
    exists slots. split; [done|]. intros n.
    destruct (Hs n) as [Hget Huniq]. split.
    + by rewrite Hget, dict_get_store.
    + intros Hacc. apply Huniq. rewrite entries_for_store by done.
      destruct (key_eqb _ n); lia.
Qed.

Lemma key_eqb_refl k : hashable k = true → key_eqb k k = true.
Proof. destruct k; simpl; try done; by case_bool_decide. Qed.

Lemma dict_get_entries d n v :
  dict_get d n = Some v → (1 ≤ length (entries_for d n))%nat.
Proof.
  unfold entries_for. induction d as [|[k' v'] d IH]; simpl; [done|].
  destruct (key_eqb k' n); simpl; [lia|auto].
Qed.

(** The entities after the last one named [n] do not change what is found
    for [n]. *)
Lemma last_value_app earlier ev later :
  hashable (entity_field "entity" ev) = true →
  forallb (fun ev' => negb (key_eqb (entity_field "entity" ev')
                              (entity_field "entity" ev))) later = true →
  last_value (earlier ++ ev :: later) (entity_field "entity" ev) =
  Some (entity_field "value" ev).
Proof.
  intros Hh Hlater. unfold last_value. rewrite foldl_app. simpl.
  rewrite key_eqb_refl by done.
  generalize (entity_field "value" ev). induction later as [|ev' later IH]; intros v.
  - done.
  - simpl in *. apply andb_prop in Hlater as [Hev' Hlater].
    apply negb_true_iff in Hev'. rewrite Hev'. by apply IH.
Qed.

(* ===================================================================== *)
(** ** The event bus: delivery *)
(* ===================================================================== *)

Section Puts.

Variable text : string.

Lemma puts_length qs h : length (foldr (queue_put text) h qs) = length h.
Proof.
  induction qs as [|q0 qs IH]; simpl; [done|].
  unfold queue_put at 1. by rewrite length_alter.
Qed.

Lemma puts_lookup_notin qs h q :
  q ∉ qs → foldr (queue_put text) h qs !! q = h !! q.
Proof.
  induction qs as [|q0 qs IH]; simpl; [done|].
  intros Hq. apply not_elem_of_cons in Hq as [Hne Hq].
  unfold queue_put at 1. rewrite list_lookup_alter_ne; auto.
Qed.

Lemma puts_lookup_in qs h q :
  NoDup qs → q ∈ qs →
  foldr (queue_put text) h qs !! q = (fun p => p ++ [text]) <$> h !! q.
Proof.
  induction qs as [|q0 qs IH]; simpl; intros Hnd Hq.
  - by apply elem_of_nil in Hq.
  - apply NoDup_cons in Hnd as [Hq0 Hnd]. unfold queue_put at 1.
    destruct (decide (q0 = q)) as [->|Hne].
    + rewrite list_lookup_alter_eq, puts_lookup_notin; done.
    + rewrite list_lookup_alter_ne by done.
      apply IH; [done|]. apply elem_of_cons in Hq as [->|]; done.
Qed.

(** The order in which [values()] yields the queues does not matter. *)
Lemma puts_permutation qs qs' h :
  Permutation qs qs' →
  foldr (queue_put text) h qs = foldr (queue_put text) h qs'.
Proof.
  induction 1 as [|q qs qs' _ IH|q1 q2 qs|qs1 qs2 qs3 _ IH1 _ IH2]; simpl.
  - done.
  - by rewrite IH.
  - unfold queue_put. destruct (decide (q2 = q1)) as [->|Hne]; [done|].
    by apply list_alter_alter_ne.
  - by rewrite IH1.
Qed.

End Puts.

Lemma bus_inv_init : bus_inv init_state.
Proof.
  split; [done|]. split.
  - intros [|[|i]] ws q; unfold registry; simpl; by rewrite ?lookup_empty.
  - intros [|[|i]] j ws ws' q; unfold registry; simpl; by rewrite ?lookup_empty.
Qed.

Lemma elem_of_subscribers st i q :
  q ∈ subscribers st i ↔ ∃ ws, registry st i !! ws = Some q.
Proof.
  unfold subscribers. rewrite list_elem_of_fmap. split.
  - intros [[ws q'] [-> Hin]]. exists ws. by apply elem_of_map_to_list.
  - intros [ws Hws]. exists (ws, q). split; [done|]. by apply elem_of_map_to_list.
Qed.

Lemma NoDup_subscribers st i : bus_inv st → NoDup (subscribers st i).
Proof.
  intros (_ & _ & Hinj). unfold subscribers.
  apply NoDup_fmap_2_strong; [|apply NoDup_map_to_list].
  intros [w1 q1] [w2 q2] H1 H2; simpl; intros <-.
  apply elem_of_map_to_list in H1, H2.
  by destruct (Hinj i i w1 w2 q1 H1 H2) as [_ ->].
Qed.

Lemma py_index_lt {A} (l : list A) (i : Z) (n : nat) :
  py_index l i = Some n → (n < length l)%nat.
Proof.
  unfold py_index. repeat case_bool_decide; intros [= <-]; lia.
Qed.

Lemma registry_alter st i j f :
  (i < length (ws_queues st))%nat →
  registry (set_ws_queues (alter f i (ws_queues st)) st) j =
  if decide (i = j) then f (registry st i) else registry st j.
Proof.
  intros Hi. unfold registry; simpl. case_decide as Hij.
  - subst j. rewrite list_lookup_alter_eq.
    apply lookup_lt_is_Some_2 in Hi as [r ->]. done.
  - by rewrite list_lookup_alter_ne.
Qed.

(** *** Publishing *)

Lemma add_ws_event_spec st event_type text i :
  bus_inv st → py_index (ws_queues st) event_type = Some i →
  ∃ st', add_ws_event event_type text st = (st', Ok tt) ∧
    core st' = core st ∧ engines st' = engines st ∧
    ws_queues st' = ws_queues st ∧ environ st' = environ st ∧
    length (queues st') = length (queues st) ∧
    ∀ q, pending st' q =
         pending st q ++ (if is_registered st i q then [text] else []).
Proof.
  intros Hinv Hi. unfold add_ws_event. rewrite Hi. eexists. split; [done|].
  simpl. repeat split; [apply puts_length|].
  intros q. unfold pending, is_registered; simpl.
  fold (registry st i). fold (subscribers st i).
  case_bool_decide as Hq.
  - rewrite puts_lookup_in by eauto using NoDup_subscribers.
    apply elem_of_subscribers in Hq as [ws Hws].
    destruct Hinv as (_ & Hlt & _). apply Hlt in Hws.
    apply lookup_lt_is_Some_2 in Hws as [p ->]. done.
  - rewrite puts_lookup_notin by done. by rewrite app_nil_r.
Qed.

Lemma add_ws_event_inv st event_type text :
  bus_inv st → bus_inv (fst (add_ws_event event_type text st)).
Proof.
  intros Hinv. unfold add_ws_event.
  destruct (py_index (ws_queues st) event_type) as [i|]; [|done].
  destruct Hinv as (Hlen & Hlt & Hinj). simpl.
  split; [done|]. split; [|done].
  intros j ws q Hq. unfold registry in Hq; simpl in *.
  rewrite puts_length. by eapply Hlt.
Qed.

(** *** Registering, leaving, taking *)

Lemma events_subscribe_pending st event_type ws q :
  pending (fst (events_subscribe event_type ws st)) q = pending st q.
Proof.
  assert (pending (set_queues (queues st ++ [[]]) st) q = pending st q) as Hp.
  { unfold pending; simpl. destruct (decide (q < length (queues st))%nat).
    - by rewrite lookup_app_l.
    - rewrite (lookup_ge_None_2 (queues st)) by lia.
      rewrite lookup_app_r by lia.
      by destruct (q - length (queues st))%nat as [|[|?]]. }
  unfold events_subscribe.
  destruct (py_index _ event_type); simpl; exact Hp.
Qed.

Lemma events_subscribe_inv st event_type ws :
  bus_inv st → bus_inv (fst (events_subscribe event_type ws st)).
Proof.
  intros (Hlen & Hlt & Hinj).
  assert (bus_inv (set_queues (queues st ++ [[]]) st)) as Hinv1.
  { split; [done|]. split; [|done]. intros j w q Hq.
    simpl. rewrite length_app. simpl. apply Hlt in Hq. lia. }
  unfold events_subscribe. simpl.
  destruct (py_index (ws_queues st) event_type) as [i|] eqn:Hi; [|done].
  apply py_index_lt in Hi. simpl.
  set (st1 := set_queues (queues st ++ [[]]) st).
  assert (∀ j, registry (set_ws_queues
            (alter (fun r => <[ws := length (queues st)]> r) i (ws_queues st)) st1) j
          = if decide (i = j) then <[ws := length (queues st)]> (registry st i)
            else registry st j) as Hreg.
  { intros j. by rewrite (registry_alter st1 i j). }
  split; [simpl; by rewrite length_alter|]. split.
  - intros j w q. rewrite Hreg. simpl. rewrite length_app. simpl.
    case_decide; [rewrite lookup_insert; case_decide|].
    + intros [= <-]. lia.
    + intros Hq. apply Hlt in Hq. lia.
    + intros Hq. apply Hlt in Hq. lia.
  - assert (∀ j w q,
      (if decide (i = j) then <[ws := length (queues st)]> (registry st i)
       else registry st j) !! w = Some q →
      (j = i ∧ w = ws ∧ q = length (queues st)) ∨
      (q ≠ length (queues st) ∧ registry st j !! w = Some q)) as Hcases.
    { intros j w q. case_decide as Hj; [subst j; rewrite lookup_insert; case_decide as Hw|].
      - intros [= <-]. left. by subst.
      - intros Hq. right. split; [|done]. apply Hlt in Hq. lia.
      - intros Hq. right. split; [|done]. apply Hlt in Hq. lia. }
    intros j k w w' q. rewrite !Hreg. intros H1 H2.
    apply Hcases in H1, H2.
    destruct H1 as [(-> & -> & ->)|[Hn1 H1]], H2 as [(-> & -> & Hq)|[Hn2 H2]];
      try done. eauto.
Qed.

Lemma events_unsubscribe_inv st event_type ws :
  bus_inv st → bus_inv (fst (events_unsubscribe event_type ws st)).
Proof.
  intros Hinv. unfold events_unsubscribe.
  destruct (py_index (ws_queues st) event_type) as [i|] eqn:Hi; [|done].
  apply py_index_lt in Hi. fold (registry st i).
  destruct (registry st i !! ws); [|done]. simpl.
  destruct Hinv as (Hlen & Hlt & Hinj).
  assert (∀ j w q, registry (set_ws_queues
            (alter (fun r => delete ws r) i (ws_queues st)) st) j !! w = Some q →
          registry st j !! w = Some q) as Hsub.
  { intros j w q. rewrite registry_alter by done. case_decide; [subst j|done].
    rewrite lookup_delete. by case_decide. }
  split; [simpl; by rewrite length_alter|]. split.
  - intros j w q Hq. apply Hsub in Hq. by eapply Hlt.
  - intros j k w w' q H1 H2. apply Hsub in H1, H2. eauto.
Qed.

Lemma queue_get_inv st q : bus_inv st → bus_inv (fst (queue_get q st)).
Proof.
  intros Hinv. unfold queue_get.
  destruct (queues st !! q) as [[|text p]|]; try done.
  destruct Hinv as (Hlen & Hlt & Hinj). simpl.
  split; [done|]. split; [|done].
  intros j w q' Hq. simpl. rewrite length_insert. by eapply Hlt.
Qed.

Lemma run_op_inv op st : bus_inv st → bus_inv (fst (run_op op st)).
Proof.
  intros Hinv. destruct op as [et ws|et ws|et text|q]; simpl.
  - pose proof (events_subscribe_inv st et ws Hinv) as H.
    unfold bind. by destruct (events_subscribe et ws st) as [st' [a|e]].
  - by apply events_unsubscribe_inv.
  - by apply add_ws_event_inv.
  - pose proof (queue_get_inv st q Hinv) as H.
    unfold bind. by destruct (queue_get q st) as [st' [a|e]].
Qed.

Lemma run_inv ops st : bus_inv st → bus_inv (run ops st).
Proof.
  revert st. induction ops as [|op ops IH]; intros st Hinv; simpl; [done|].
  apply IH. by apply run_op_inv.
Qed.

(** What one step does to the texts waiting in a queue. *)
Lemma run_op_pending op st q :
  bus_inv st →
  taken q [op] st ++ pending (fst (run_op op st)) q =
  pending st q ++ published_to q [op] st.
Proof.
  intros Hinv. destruct op as [et ws|et ws|et text|q']; simpl.
  - rewrite app_nil_r. unfold bind.
    pose proof (events_subscribe_pending st et ws q) as H.
    by destruct (events_subscribe et ws st) as [st' [a|e]].
  - rewrite app_nil_r. unfold events_unsubscribe.
    destruct (py_index (ws_queues st) et) as [i|]; [|done].
    by destruct (default ∅ (ws_queues st !! i) !! ws).
  - destruct (py_index (ws_queues st) et) as [i|] eqn:Hi.
    + destruct (add_ws_event_spec st et text i Hinv Hi) as (st' & -> & _ & _ & _ & _ & _ & Hp).
      simpl. by rewrite Hp, app_nil_r.
    + unfold add_ws_event. rewrite Hi. simpl. by rewrite app_nil_r.
  - rewrite !app_nil_r. unfold bind, queue_get, pending.
    case_bool_decide as Hq.
    + subst q'. destruct (queues st !! q) as [[|text p]|] eqn:Hl; simpl; try by rewrite Hl.
      rewrite list_lookup_insert_eq; [done|]. by eapply lookup_lt_Some.
    + destruct (queues st !! q') as [[|text p]|] eqn:Hl; simpl; try done.
      by rewrite list_lookup_insert_ne.
Qed.

Lemma run_pending ops st q :
  bus_inv st →
  taken q ops st ++ pending (run ops st) q = pending st q ++ published_to q ops st.
Proof.
  revert st. induction ops as [|op ops IH]; intros st Hinv.
  - simpl. by rewrite app_nil_r.
  - pose proof (run_op_pending op st q Hinv) as Hop.
    pose proof (IH _ (run_op_inv op st Hinv)) as Hrest.
    simpl in Hop. rewrite !app_nil_r in Hop.
    cbn [taken published_to run].
    rewrite <- !app_assoc, Hrest, !app_assoc. by rewrite Hop.
Qed.

(* ===================================================================== *)
(** ** What logging does to the bus *)
(* ===================================================================== *)

Lemma is_registered_ws st st' i q :
  ws_queues st' = ws_queues st → is_registered st' i q = is_registered st i q.
Proof. intros H. unfold is_registered, subscribers, registry. by rewrite H. Qed.

Lemma quiet_refl st : quiet st st.
Proof. repeat split; done. Qed.

Lemma quiet_trans st1 st2 st3 : quiet st1 st2 → quiet st2 st3 → quiet st1 st3.
Proof.
  intros (Hw1 & Hl1 & Hp1 & Ho1) (Hw2 & Hl2 & Hp2 & Ho2).
  split; [congruence|]. split; [congruence|]. split.
  - intros q. etrans; eauto.
  - intros q Hq. rewrite Ho2, Ho1; [done..|].
    by rewrite (is_registered_ws st1 st2).
Qed.

Global Instance quiet_preorder : PreOrder quiet.
Proof. split; [exact quiet_refl | exact quiet_trans]. Qed.

Lemma quiet_bus_inv st st' : quiet st st' → bus_inv st → bus_inv st'.
Proof.
  intros (Hw & Hl & _ & _) (Hlen & Hlt & Hinj). unfold bus_inv, registry in *.
  rewrite Hw, Hl. done.
Qed.

Lemma logs_only_refl st : logs_only st st.
Proof. repeat split; done. Qed.

Lemma logs_only_trans st1 st2 st3 :
  logs_only st1 st2 → logs_only st2 st3 → logs_only st1 st3.
Proof.
  intros (? & ? & ? & ?) (? & ? & ? & ?).
  repeat split; try congruence; by eapply quiet_trans.
Qed.

Lemma logs_only_quiet st st' : logs_only st st' → quiet st st'.
Proof. by intros (_ & _ & _ & H). Qed.

(** A registered queue is in one registry only. *)
Lemma registered_once st i j q :
  bus_inv st → is_registered st i q = true → i ≠ j →
  is_registered st j q = false.
Proof.
  intros (_ & _ & Hinj) Hi Hne. unfold is_registered in *.
  apply bool_decide_eq_true in Hi. apply bool_decide_eq_false. intros Hj.
  apply elem_of_subscribers in Hi as [w Hw], Hj as [w' Hw'].
  by destruct (Hinj i j w w' q Hw Hw').
Qed.

Lemma py_index_log st :
  bus_inv st → py_index (ws_queues st) WS_EVENT_LOG = Some LOG.
Proof. intros (Hlen & _). unfold py_index. by rewrite Hlen. Qed.

Lemma py_index_intent st :
  bus_inv st → py_index (ws_queues st) WS_EVENT_INTENT = Some INTENT.
Proof. intros (Hlen & _). unfold py_index. by rewrite Hlen. Qed.

Lemma log_handler_spec msg st :
  bus_inv st →
  ∃ st', log_handler msg st = (st', Ok tt) ∧ logs_only st st'.
Proof.
  intros Hinv. unfold log_handler.
  destruct (add_ws_event_spec st WS_EVENT_LOG msg LOG Hinv (py_index_log st Hinv))
    as (st' & Heq & Hc & He & Hw & Hv & Hl & Hp).
  exists st'. split; [done|]. repeat split; try done.
  - intros q. rewrite Hp. by apply prefix_app_r.
  - intros q Hq. by rewrite Hp, Hq, app_nil_r.
Qed.

Lemma for_each_log_spec msgs st :
  bus_inv st →
  ∃ st', for_each msgs log_handler st = (st', Ok tt) ∧ logs_only st st'.
Proof.
  revert st. induction msgs as [|msg msgs IH]; intros st Hinv; simpl.
  - exists st. split; [done|apply logs_only_refl].
  - destruct (log_handler_spec msg st Hinv) as (st1 & Heq & H1).
    unfold bind. rewrite Heq.
    destruct (IH st1) as (st2 & -> & H2).
    { eapply quiet_bus_inv; [by apply logs_only_quiet|done]. }
    exists st2. split; [done|]. by eapply logs_only_trans.
Qed.

Lemma external_spec {A} (c : Call A) st :
  bus_inv st →
  ∃ st', external c st = (st', returned c) ∧ logs_only st st'.
Proof.
  intros Hinv. unfold external, bind, lift.
  destruct (for_each_log_spec (logged c) st Hinv) as (st' & -> & H).
  by exists st'.
Qed.

(** *** Composition *)

Section Respects.

Context (R : State -> State -> Prop) `{!PreOrder R}.
Hypothesis R_inv : ∀ st st', R st st' → bus_inv st → bus_inv st'.

Lemma respects_ret {A} (a : A) : respects R (ret a).
Proof. intros st _. simpl. reflexivity. Qed.

Lemma respects_raise {A} e : respects R (@raise A e).
Proof. intros st _. simpl. reflexivity. Qed.

Lemma respects_lift {A} (r : result A) : respects R (lift r).
Proof. intros st _. simpl. reflexivity. Qed.

Lemma respects_get_state : respects R get_state.
Proof. intros st _. simpl. reflexivity. Qed.

Lemma respects_bind {A B} (m : M A) (k : A -> M B) :
  respects R m → (∀ a, respects R (k a)) → respects R (bind m k).
Proof.
  intros Hm Hk st Hinv. unfold bind. specialize (Hm st Hinv).
  destruct (m st) as [st1 [a|e]]; simpl in *; [|done].
  etrans; [exact Hm|]. apply Hk. by eapply R_inv.
Qed.

Lemma respects_for_each {A} (l : list A) (body : A -> M unit) :
  (∀ x, respects R (body x)) → respects R (for_each l body).
Proof.
  intros Hbody. induction l as [|x l IH]; simpl.
  - apply respects_ret.
  - apply respects_bind; auto.
Qed.

End Respects.

Lemma respects_quiet_log msg : respects quiet (log_handler msg).
Proof.
  intros st Hinv. destruct (log_handler_spec msg st Hinv) as (st' & -> & H).
  by apply logs_only_quiet.
Qed.

Lemma respects_quiet_external {A} (c : Call A) : respects quiet (external c).
Proof.
  intros st Hinv. destruct (external_spec c st Hinv) as (st' & -> & H).
  by apply logs_only_quiet.
Qed.

(** A change of [core], [engines] or [environ] is not seen on the bus. *)
Lemma respects_quiet_modify (f : State -> State) :
  (∀ st, ws_queues (f st) = ws_queues st ∧ queues (f st) = queues st) →
  respects quiet (modify f).
Proof.
  intros Hf st _. simpl. destruct (Hf st) as [Hw Hq].
  unfold quiet, pending. rewrite Hw, Hq. repeat split; done.
Qed.

Ltac quiet_step :=
  repeat first
    [ apply (respects_bind quiet quiet_bus_inv); [|intros]
    | apply (respects_for_each quiet quiet_bus_inv); intros
    | apply respects_quiet_modify; intros; split; reflexivity
    | apply respects_quiet_log
    | apply respects_quiet_external
    | apply respects_ret | apply respects_raise
    | apply respects_lift | apply respects_get_state ].

Section QuietProcess.

Variable X : External.

Lemma respects_quiet_update_engine e f : respects quiet (update_engine e f).
Proof. unfold update_engine. quiet_step. Qed.

Lemma respects_quiet_engine_shutdown e : respects quiet (engine_shutdown X e).
Proof. unfold engine_shutdown, update_engine. quiet_step. Qed.

Lemma respects_quiet_shutdown : respects quiet (shutdown X).
Proof.
  unfold shutdown. quiet_step. destruct (core a); [|quiet_step].
  unfold engine_shutdown, update_engine. quiet_step.
Qed.

Lemma respects_quiet_start_rhasspy : respects quiet (start_rhasspy X).
Proof.
  unfold start_rhasspy, new_engine, setenv, apply_setting, logger_debug, logger_info,
    engine_start, profile_set, update_engine.
  quiet_step.
Qed.

Lemma respects_quiet_assert_core : respects quiet assert_core.
Proof. unfold assert_core. quiet_step. destruct (core a); quiet_step. Qed.

Lemma respects_quiet_api_restart req : respects quiet (api_restart X req).
Proof.
  unfold api_restart, logger_debug, logger_info.
  apply (respects_bind quiet quiet_bus_inv); [apply respects_quiet_assert_core|].
  intros c. quiet_step.
Qed.

Lemma respects_quiet_handle_error err : respects quiet (handle_error X err).
Proof. unfold handle_error, logger_exception. quiet_step. Qed.

Lemma respects_quiet_dispatch view req :
  respects quiet (view req) → respects quiet (dispatch X view req).
Proof.
  intros Hview st Hinv. unfold dispatch. specialize (Hview st Hinv).
  destruct (view req st) as [st1 [r|err]]; simpl in *; [done|].
  etrans; [exact Hview|].
  apply respects_quiet_handle_error. by eapply quiet_bus_inv.
Qed.

Lemma respects_quiet_speech_to_text req : respects quiet (api_speech_to_text X req).
Proof.
  unfold api_speech_to_text.
  apply (respects_bind quiet quiet_bus_inv); [apply respects_quiet_assert_core|].
  intros c. quiet_step.
Qed.

Lemma respects_quiet_api_other view req : respects quiet (api_other view req).
Proof.
  unfold api_other.
  apply (respects_bind quiet quiet_bus_inv); [apply respects_quiet_assert_core|].
  intros c. quiet_step.
Qed.

End QuietProcess.

(* ===================================================================== *)
(** ** The engine lifecycle *)
(* ===================================================================== *)

Lemma bus_inv_fields st st' :
  ws_queues st' = ws_queues st → queues st' = queues st →
  bus_inv st → bus_inv st'.
Proof.
  intros Hw Hq. unfold bus_inv, registry. by rewrite Hw, Hq.
Qed.

Lemma quiet_fields st st' :
  ws_queues st' = ws_queues st → queues st' = queues st → quiet st st'.
Proof.
  intros Hw Hq. unfold quiet, pending. rewrite Hw, Hq. repeat split; done.
Qed.

Lemma configures_refl e st : configures e st st.
Proof. repeat split; eauto. Qed.

Lemma configures_trans e st1 st2 st3 :
  configures e st1 st2 → configures e st2 st3 → configures e st1 st3.
Proof.
  intros (Hc1 & Hl1 & Ho1 & He1 & Hq1) (Hc2 & Hl2 & Ho2 & He2 & Hq2).
  split; [congruence|]. split; [congruence|]. split; [|split].
  - intros e' Hne. by rewrite Ho2, Ho1.
  - intros r Hr. destruct (He1 r Hr) as (r1 & Hr1 & ? & ?).
    destruct (He2 r1 Hr1) as (r2 & Hr2 & ? & ?).
    exists r2. split; [done|]. split; congruence.
  - by eapply quiet_trans.
Qed.

Lemma logs_only_configures e st st' : logs_only st st' → configures e st st'.
Proof.
  intros (Hc & He & _ & Hq). unfold configures. rewrite He.
  split; [done|]. split; [done|]. split; [done|]. split; [|done].
  intros r Hr. by exists r.
Qed.

Lemma configures_bus_inv e st st' : configures e st st' → bus_inv st → bus_inv st'.
Proof. intros (_ & _ & _ & _ & Hq). by apply quiet_bus_inv. Qed.

Lemma bind_ok {A B} (m : M A) (k : A -> M B) st st' a :
  m st = (st', Ok a) → bind m k st = k a st'.
Proof. intros H. unfold bind. by rewrite H. Qed.

Lemma bind_raise {A B} (m : M A) (k : A -> M B) st st' err :
  m st = (st', Raise err) → bind m k st = (st', Raise err).
Proof. intros H. unfold bind. by rewrite H. Qed.

Lemma fst_bind_ret {A} (m : M A) st : fst ((m ;; ret tt) st) = fst (m st).
Proof. unfold bind. by destruct (m st) as [st' [a|err]]. Qed.

Section Lifecycle.

Variable X : External.

Lemma engine_shutdown_spec e st :
  bus_inv st →
  ∃ st', engine_shutdown X e st = (st', returned (core_shutdown X e)) ∧
    core st' = core st ∧
    engines st' = alter stopped_once e (engines st) ∧
    environ st' = environ st ∧ quiet st st'.
Proof.
  intros Hinv. unfold engine_shutdown, bind, update_engine, modify.
  set (st1 := set_engines _ st).
  destruct (external_spec (core_shutdown X e) st1) as (st2 & -> & Hc & He & Hv & Hq).
  { by apply (bus_inv_fields st). }
  exists st2. split; [by destruct (returned _) as [[]|]|].
  split; [done|]. split; [done|]. split; [done|].
  eapply quiet_trans; [|exact Hq]. by apply quiet_fields.
Qed.

Lemma engine_start_spec e st :
  bus_inv st →
  ∃ st', engine_start X e st = (st', returned (core_start X e)) ∧
    core st' = core st ∧
    engines st' = alter started_once e (engines st) ∧
    environ st' = environ st ∧ quiet st st'.
Proof.
  intros Hinv. unfold engine_start, bind, update_engine, modify.
  set (st1 := set_engines _ st).
  destruct (external_spec (core_start X e) st1) as (st2 & -> & Hc & He & Hv & Hq).
  { by apply (bus_inv_fields st). }
  exists st2. split; [by destruct (returned _) as [[]|]|].
  split; [done|]. split; [done|]. split; [done|].
  eapply quiet_trans; [|exact Hq]. by apply quiet_fields.
Qed.

(** [shutdown] with an engine: the stop sequence runs once; the handle is
    cleared when it returns and kept when it raises. *)
Lemma shutdown_spec e st :
  bus_inv st → core st = Some e →
  ∃ st', shutdown X st = (st', outcome (core_shutdown X e) tt) ∧
    core st' = (if is_ok (returned (core_shutdown X e)) then None else Some e) ∧
    engines st' = alter stopped_once e (engines st) ∧
    environ st' = environ st ∧ quiet st st'.
Proof.
  intros Hinv Hcore. unfold shutdown, bind at 1, get_state. rewrite Hcore.
  unfold bind, outcome.
  destruct (engine_shutdown_spec e st Hinv) as (st1 & -> & Hc & He & Hv & Hq).
  destruct (returned (core_shutdown X e)) as [[]|err]; simpl.
  - eexists. split; [done|]. simpl.
    split; [done|]. split; [done|]. split; [done|].
    eapply quiet_trans; [exact Hq|]. by apply quiet_fields.
  - exists st1. split; [done|]. split; [congruence|]. done.
Qed.

Lemma shutdown_none st : core st = None → shutdown X st = (st, Ok tt).
Proof. intros Hcore. unfold shutdown, bind, get_state. by rewrite Hcore. Qed.

Lemma apply_setting_spec e kv st :
  bus_inv st →
  ∃ st', apply_setting X e kv st = (st', Ok tt) ∧ configures e st st'.
Proof.
  intros Hinv. unfold apply_setting, logger_debug, bind.
  destruct (log_handler_spec
              (log_format X AppLogger DEBUG
                 (format_setting X (fst kv)
                    match json_loads X (snd kv) with
                    | Ok v => v
                    | Raise _ => PStr (snd kv)
                    end)) st Hinv) as (st1 & -> & H1).
  unfold profile_set, update_engine, modify. eexists. split; [done|].
  eapply configures_trans; [by apply logs_only_configures|].
  split; [done|]. split; [simpl; by rewrite length_alter|]. split; [|split].
  - intros e' Hne. simpl. by rewrite list_lookup_alter_ne.
  - intros r Hr. simpl. rewrite list_lookup_alter_eq, Hr. simpl. eauto.
  - by apply quiet_fields.
Qed.

Lemma apply_settings_spec e settings st :
  bus_inv st →
  ∃ st', for_each settings (apply_setting X e) st = (st', Ok tt) ∧
    configures e st st'.
Proof.
  revert st. induction settings as [|kv settings IH]; intros st Hinv; simpl.
  - exists st. split; [done|apply configures_refl].
  - unfold bind.
    destruct (apply_setting_spec e kv st Hinv) as (st1 & -> & H1).
    destruct (IH st1) as (st2 & -> & H2); [by eapply configures_bus_inv|].
    exists st2. split; [done|]. by eapply configures_trans.
Qed.

Lemma new_engine_spec st :
  bus_inv st →
  returned (core_new X (length (engines st))) = Ok tt →
  ∃ st1, new_engine X st =
           (set_engines (engines st ++ [mkEngine [] 0 0]) st1,
            Ok (length (engines st))) ∧
    logs_only st st1.
Proof.
  intros Hinv Hnew.
  destruct (external_spec (core_new X (length (engines st))) st Hinv)
    as (st1 & Heq1 & H1).
  exists st1. split; [|done].
  unfold new_engine. rewrite (bind_ok _ _ st st st) by done.
  rewrite Hnew in Heq1. rewrite (bind_ok _ _ _ _ _ Heq1).
  by rewrite (bind_ok _ _ _ (set_engines (engines st ++ [mkEngine [] 0 0]) st1) tt).
Qed.

End Lifecycle.

(* ===================================================================== *)
(** ** The event bus: the statements *)
(* ===================================================================== *)

(** C1. Over every schedule of registrations, removals, publications and
    takes, in the state [st] that a schedule [before] leads to:
    [add_ws_event] puts its text exactly once on each queue registered in
    the registry it publishes to, and on no other queue; and over any
    schedule [after], what is taken from a queue [q] plus what is left in it
    is what it held plus, once each and in order, the texts published at a
    moment when [q] was registered in the registry published to.  A queue
    that registers later starts empty and gets none of the earlier texts. *)
Theorem add_ws_event_exactly_once
    (before after : list BusOp) (event_type : Z) (text : string) (q : Qid) :
  let st := run before init_state in
  let st' := fst (add_ws_event event_type text st) in
  pending st' q =
    pending st q ++
      match py_index (ws_queues st) event_type with
      | Some i => if is_registered st i q then [text] else []
      | None => []
      end
  ∧ taken q after st' ++ pending (run after st') q =
    pending st' q ++ published_to q after st'.
Proof.
  intros st st'.
  assert (bus_inv st) as Hinv by (apply run_inv, bus_inv_init).
  split.
  - pose proof (run_op_pending (Publish event_type text) st q Hinv) as H.
    simpl in H. by rewrite !app_nil_r in H.
  - apply run_pending. by apply add_ws_event_inv.
Qed.

(** The scenario of the specification: A and B listen to intents, TurnOn is
    published, A leaves, TurnOff is published; C listens to the log. *)
Example two_subscribers :
  let st := run [Subscribe WS_EVENT_INTENT 1; Subscribe WS_EVENT_INTENT 2;
                 Subscribe WS_EVENT_LOG 3;
                 Publish WS_EVENT_INTENT "TurnOn";
                 Unsubscribe WS_EVENT_INTENT 1;
                 Publish WS_EVENT_INTENT "TurnOff";
                 Subscribe WS_EVENT_INTENT 4] init_state in
  pending st 0 = ["TurnOn"] ∧ pending st 1 = ["TurnOn"; "TurnOff"] ∧
  pending st 2 = [] ∧ pending st 3 = [].
Proof. vm_compute. done. Qed.

(** C4, as the claim states it, fails: the second removal of a websocket
    raises [KeyError]. *)
Lemma events_unsubscribe_twice_raises :
  let st := run [Subscribe WS_EVENT_INTENT 7; Unsubscribe WS_EVENT_INTENT 7]
              init_state in
  snd (api_events_intent_leave 7 st) = Raise KeyError ∧
  snd (api_events_log_leave 9 init_state) = Raise KeyError.
Proof. vm_compute. done. Qed.

(** C4, amended.  Removing a websocket that is a key of the registry deletes
    that entry and nothing else, after which the websocket is absent;
    removing a websocket that is absent (a second removal, an unknown
    websocket) raises [KeyError] and changes nothing. *)
Theorem events_unsubscribe_present_or_KeyError
    (st : State) (event_type : Z) (ws : Ws) :
  match py_index (ws_queues st) event_type with
  | None => events_unsubscribe event_type ws st = (st, Raise IndexError)
  | Some i =>
      match registry st i !! ws with
      | None => events_unsubscribe event_type ws st = (st, Raise KeyError)
      | Some _ =>
          let st' := set_ws_queues
                       (alter (fun r => delete ws r) i (ws_queues st)) st in
          events_unsubscribe event_type ws st = (st', Ok tt) ∧
          registry st' i = delete ws (registry st i) ∧
          queues st' = queues st ∧
          events_unsubscribe event_type ws st' = (st', Raise KeyError)
      end
  end.
Proof.
  unfold events_unsubscribe.
  destruct (py_index (ws_queues st) event_type) as [i|] eqn:Hi; [|done].
  fold (registry st i). destruct (registry st i !! ws) eqn:Hws; [|done].
  pose proof (py_index_lt _ _ _ Hi) as Hlt.
  assert (registry (set_ws_queues (alter (fun r => delete ws r) i (ws_queues st)) st) i
          = delete ws (registry st i)) as Hreg.
  { rewrite registry_alter by done. by rewrite decide_True. }
  simpl. split; [done|]. split; [done|]. split; [done|].
  assert (py_index (alter (fun r : gmap nat nat => delete ws r) i (ws_queues st))
            event_type = Some i) as ->.
  { unfold py_index in *. by rewrite length_alter. }
  unfold registry in Hreg. simpl in Hreg. rewrite Hreg.
  by rewrite lookup_delete_eq.
Qed.

(* ===================================================================== *)
(** ** The engine lifecycle: the statements *)
(* ===================================================================== *)

Lemma bus_inv_running X : bus_inv (running X).
Proof.
  eapply quiet_bus_inv; [|exact bus_inv_init].
  apply respects_quiet_start_rhasspy, bus_inv_init.
Qed.

Lemma bus_inv_listening X : bus_inv (listening X).
Proof. apply run_inv, bus_inv_running. Qed.

(** C2, as the claim states it, fails: with the engine running, a second
    [start_rhasspy] returns normally and [core] names a new instance. *)
Lemma start_rhasspy_twice_returns :
  let st := running calm in
  let again := start_rhasspy calm st in
  core st = Some 0%nat ∧ snd again = Ok tt ∧ core (fst again) = Some 1%nat ∧
  engines (fst again) !! 0%nat = engines st !! 0%nat.
Proof. vm_compute. done. Qed.

(** C2, amended.  [start_rhasspy] does not look at [core]: when the
    constructor, the observer setup and the start sequence of the new
    instance return, it returns, [core] names the new instance, which was
    started once and never stopped, and every instance that existed before
    is as it was (neither stopped nor changed), whether [core] named one or
    not. *)
Theorem start_rhasspy_replaces_core (X : External) (st : State) :
  bus_inv st →
  let e := length (engines st) in
  returned (core_new X e) = Ok tt →
  returned (create_observer X e) = Ok tt →
  returned (core_start X e) = Ok tt →
  ∃ st' r, start_rhasspy X st = (st', Ok tt) ∧
    core st' = Some e ∧
    length (engines st') = S e ∧
    (∀ e', (e' < e)%nat → engines st' !! e' = engines st !! e') ∧
    engines st' !! e = Some r ∧ e_started r = 1%nat ∧ e_stopped r = 0%nat ∧
    quiet st st'.
Proof.
  intros Hinv e Hnew Hobs Hstart.
  assert (e = length (engines st)) as Ee by done. clearbody e.
  pose proof (respects_quiet_start_rhasspy X st Hinv) as Hquiet.
  rewrite Ee in Hnew.
  destruct (new_engine_spec X st Hinv Hnew) as (st1 & Heq1 & Hc1 & He1 & _ & Hq1).
  rewrite <- Ee in Heq1.
  set (st2 := set_environ (<["RHASSPY_PROFILE_DIR" := profile_write_dir X e]>
                (<["RHASSPY_PROFILE" := profile_name X e]>
                   (<["RHASSPY_BASE_DIR" := getcwd X]> (environ st1))))
                (set_core (Some e)
                   (set_engines (engines st ++ [mkEngine [] 0 0]) st1))).
  assert (bus_inv st2) as Hinv2.
  { apply (bus_inv_fields st1); [done..|]. by eapply quiet_bus_inv. }
  destruct (apply_settings_spec X e (args_set X) st2 Hinv2)
    as (st3 & Heq3 & Hc3 & Hl3 & Ho3 & Hr3 & Hq3).
  assert (bus_inv st3) as Hinv3 by (by eapply quiet_bus_inv).
  destruct (external_spec (create_observer X e) st3 Hinv3)
    as (st4 & Heq4 & Hc4 & He4 & _ & Hq4).
  rewrite Hobs in Heq4.
  assert (bus_inv st4) as Hinv4 by (by eapply quiet_bus_inv).
  destruct (engine_start_spec X e st4 Hinv4) as (st5 & Heq5 & Hc5 & He5 & _ & Hq5).
  rewrite Hstart in Heq5.
  assert (bus_inv st5) as Hinv5 by (by eapply quiet_bus_inv).
  destruct (log_handler_spec (log_format X AppLogger INFO "Started") st5 Hinv5)
    as (st6 & Heq6 & Hc6 & He6 & _ & Hq6).
  assert (start_rhasspy X st = (st6, Ok tt)) as Heq.
  { unfold start_rhasspy. rewrite (bind_ok _ _ _ _ _ Heq1).
    unfold setenv, modify, bind at 1 2 3 4. simpl.
    change (set_environ _ _) with st2.
    rewrite (bind_ok _ _ _ _ _ Heq3), (bind_ok _ _ _ _ _ Heq4).
    by rewrite (bind_ok _ _ _ _ _ Heq5). }
  rewrite Heq in Hquiet. simpl in Hquiet.
  assert (engines st2 = engines st ++ [mkEngine [] 0 0]) as He2 by done.
  assert (engines st2 !! e = Some (mkEngine [] 0 0)) as Hlook.
  { rewrite He2, Ee. rewrite lookup_app_r by lia. by rewrite Nat.sub_diag. }
  destruct (Hr3 _ Hlook) as (r3 & Hlook3 & Hs3 & Ht3).
  exists st6, (started_once r3). split; [done|].
  rewrite He6, He5, He4, Hc6, Hc5, Hc4, Hc3.
  split; [done|]. split.
  { rewrite length_alter, Hl3, He2, length_app. simpl. lia. }
  split.
  { intros e' Hlt. rewrite list_lookup_alter_ne by lia.
    rewrite Ho3 by lia. rewrite He2. rewrite lookup_app_l by lia. done. }
  split.
  { by rewrite list_lookup_alter_eq, Hlook3. }
  simpl in *. split; [by rewrite Hs3|]. split; done.
Qed.

Lemma start_rhasspy_replaces_core_witness :
  ∃ st' r, start_rhasspy calm (running calm) = (st', Ok tt) ∧
    core st' = Some 1%nat ∧
    length (engines st') = 2%nat ∧
    (∀ e', (e' < 1)%nat → engines st' !! e' = engines (running calm) !! e') ∧
    engines st' !! 1%nat = Some r ∧ e_started r = 1%nat ∧ e_stopped r = 0%nat ∧
    quiet (running calm) st'.
Proof.
  apply (start_rhasspy_replaces_core calm (running calm) (bus_inv_running calm));
    reflexivity.
Defined.

(** C3, as the claim states it, fails: when the stop sequence raises, the
    first [shutdown] leaves [core] as it was, and a second [shutdown] (the
    atexit hook, say) invokes [core.shutdown] on the same engine again. *)
Lemma shutdown_twice_stops_twice :
  let st := running stubborn in
  let once := shutdown stubborn st in
  let twice := shutdown stubborn (fst once) in
  e_stopped <$> engines st !! 0%nat = Some 0%nat ∧
  snd once = Raise (Exception "audio device busy") ∧
  snd twice = Raise (Exception "audio device busy") ∧
  e_stopped <$> engines (fst twice) !! 0%nat = Some 2%nat.
Proof. vm_compute. done. Qed.

(** C3, amended.  With [core] null, [shutdown] does nothing.  With [core]
    naming an engine whose stop sequence returns, two calls of [shutdown] in
    a row (the second may be the atexit hook) invoke [core.shutdown] on that
    engine once: the first call counts one stop and clears [core], the
    second changes nothing.  When the stop sequence raises, each of the two
    calls invokes it and raises, and [core] still names the engine. *)
Theorem shutdown_twice_stops_once (X : External) (st : State) :
  bus_inv st →
  (core st = None → shutdown X st = (st, Ok tt)) ∧
  (∀ e r, core st = Some e → engines st !! e = Some r →
     let once := shutdown X st in
     let twice := shutdown X (fst once) in
     (∀ e', e' ≠ e → engines (fst twice) !! e' = engines st !! e') ∧
     match returned (core_shutdown X e) with
     | Ok _ =>
         snd once = Ok tt ∧ snd twice = Ok tt ∧
         core (fst once) = None ∧
         engines (fst once) !! e = Some (stopped_once r) ∧
         fst twice = fst once
     | Raise err =>
         snd once = Raise err ∧ snd twice = Raise err ∧
         core (fst twice) = Some e ∧
         engines (fst twice) !! e = Some (stopped_once (stopped_once r))
     end).
Proof.
  intros Hinv. split; [apply shutdown_none|].
  intros e r Hcore Hr once twice. subst once twice.
  destruct (shutdown_spec X e st Hinv Hcore) as (st1 & Heq & Hc & He & _ & Hq).
  unfold outcome in Heq. rewrite Heq. simpl.
  destruct (returned (core_shutdown X e)) as [[]|err] eqn:Hret; simpl in Hc.
  - rewrite (shutdown_none X st1 Hc). simpl. rewrite He. split.
    + intros e' Hne. by rewrite list_lookup_alter_ne.
    + split; [done|]. split; [done|]. split; [done|]. split; [|done].
      by rewrite list_lookup_alter_eq, Hr.
  - assert (bus_inv st1) as Hinv1 by (by eapply quiet_bus_inv).
    destruct (shutdown_spec X e st1 Hinv1 Hc) as (st2 & Heq2 & Hc2 & He2 & _ & _).
    unfold outcome in Heq2. rewrite Hret in Heq2, Hc2. simpl in Hc2.
    rewrite Heq2. simpl. rewrite He2, He. split.
    + intros e' Hne. by rewrite !list_lookup_alter_ne.
    + split; [done|]. split; [done|]. split; [done|].
      by rewrite !list_lookup_alter_eq, Hr.
Qed.

Lemma shutdown_twice_stops_once_witness :
  let once := shutdown calm (running calm) in
  let twice := shutdown calm (fst once) in
  snd once = Ok tt ∧ snd twice = Ok tt ∧
  core (fst once) = None ∧
  engines (fst once) !! 0%nat = Some (stopped_once (mkEngine [] 1 0)) ∧
  fst twice = fst once.
Proof.
  destruct (shutdown_twice_stops_once calm (running calm) (bus_inv_running calm))
    as [_ H].
  destruct (H 0%nat (mkEngine [] 1 0) eq_refl eq_refl) as [_ H'].
  exact H'.
Defined.

(** C7, as the claim states it, fails: when the stop sequence raises,
    [shutdown] raises and [core] still names the engine. *)
Lemma shutdown_failure_leaves_core :
  let st := running stubborn in
  core st = Some 0%nat ∧
  snd (shutdown stubborn st) = Raise (Exception "audio device busy") ∧
  core (fst (shutdown stubborn st)) = Some 0%nat ∧
  snd (api_restart stubborn empty_request st) = Raise (Exception "audio device busy") ∧
  core (fst (api_restart stubborn empty_request st)) = Some 0%nat.
Proof. vm_compute. done. Qed.

(** C7, amended.  When the stop sequence of the engine raises, [shutdown]
    raises the same exception and [core] is left as it was, naming that
    engine; [api_restart] raises it too, constructs no new instance and
    leaves [core] as it was.  (When the stop sequence returns, [shutdown]
    clears [core].) *)
Theorem shutdown_failure_keeps_core
    (X : External) (st : State) (e : EngineId) (req : Request) :
  bus_inv st → core st = Some e →
  match returned (core_shutdown X e) with
  | Raise err =>
      snd (shutdown X st) = Raise err ∧
      core (fst (shutdown X st)) = Some e ∧
      snd (api_restart X req st) = Raise err ∧
      core (fst (api_restart X req st)) = Some e ∧
      length (engines (fst (api_restart X req st))) = length (engines st)
  | Ok _ =>
      snd (shutdown X st) = Ok tt ∧ core (fst (shutdown X st)) = None
  end.
Proof.
  intros Hinv Hcore.
  destruct (shutdown_spec X e st Hinv Hcore) as (st1 & Heq & Hc & He & _ & _).
  unfold outcome in Heq. rewrite Heq.
  destruct (returned (core_shutdown X e)) as [[]|err] eqn:Hret; [done|].
  split; [done|]. split; [done|].
  unfold api_restart.
  assert (assert_core st = (st, Ok e)) as Ha.
  { unfold assert_core, bind, get_state. by rewrite Hcore. }
  rewrite (bind_ok _ _ _ _ _ Ha).
  destruct (log_handler_spec (log_format X AppLogger DEBUG "Restarting Rhasspy")
              st Hinv) as (st2 & Heq2 & Hc2 & He2 & _ & Hq2).
  unfold logger_debug. rewrite (bind_ok _ _ _ _ _ Heq2).
  destruct (engine_shutdown_spec X e st2) as (st3 & Heq3 & Hc3 & He3 & _ & _).
  { by eapply quiet_bus_inv. }
  rewrite Hret in Heq3. rewrite (bind_raise _ _ _ _ _ Heq3). simpl.
  split; [done|]. split; [congruence|].
  by rewrite He3, length_alter, He2.
Qed.

Lemma shutdown_failure_keeps_core_witness :
  snd (shutdown stubborn (running stubborn)) = Raise (Exception "audio device busy") ∧
  core (fst (shutdown stubborn (running stubborn))) = Some 0%nat ∧
  snd (api_restart stubborn empty_request (running stubborn)) =
    Raise (Exception "audio device busy") ∧
  core (fst (api_restart stubborn empty_request (running stubborn))) = Some 0%nat ∧
  length (engines (fst (api_restart stubborn empty_request (running stubborn)))) =
    length (engines (running stubborn)).
Proof.
  exact (shutdown_failure_keeps_core stubborn (running stubborn) 0%nat empty_request
           (bus_inv_running stubborn) eq_refl).
Defined.

(** C9, as the claim states it, fails: the log lines of a restart are
    published like any other, so the queue of a session that listens to the
    log is not as it was. *)
Lemma api_restart_logs_to_sessions :
  let st := listening calm in
  let st' := fst (api_restart calm empty_request st) in
  is_registered st LOG 1 = true ∧
  pending st 1 = [] ∧
  pending st' 1 = ["Restarting Rhasspy"; "Started"; "Restarted Rhasspy"].
Proof. vm_compute. done. Qed.

(** C9, amended.  [api_restart], however it ends, leaves the registries as
    they are and loses, repeats or reorders no waiting text: what a queue
    held is the beginning of what it holds afterwards, a queue that is not
    registered for the log holds exactly what it held, and a queue
    registered for the log has in addition the log lines written during the
    restart.  A text published after the restart reaches exactly the queues
    that were registered before it. *)
Theorem api_restart_keeps_sessions (X : External) (req : Request) (st : State) :
  bus_inv st →
  let st' := fst (api_restart X req st) in
  ws_queues st' = ws_queues st ∧
  (∀ q, pending st q `prefix_of` pending st' q) ∧
  (∀ q, is_registered st LOG q = false → pending st' q = pending st q) ∧
  (∀ event_type text q,
     pending (fst (add_ws_event event_type text st')) q =
       pending st' q ++
         match py_index (ws_queues st) event_type with
         | Some i => if is_registered st i q then [text] else []
         | None => []
         end).
Proof.
  intros Hinv st'.
  destruct (respects_quiet_api_restart X req st Hinv) as (Hw & Hl & Hp & Ho).
  fold st' in Hw, Hl, Hp, Ho.
  split; [done|]. split; [done|]. split; [done|].
  intros event_type text q.
  assert (bus_inv st') as Hinv'.
  { eapply quiet_bus_inv; [|exact Hinv]. by repeat split. }
  pose proof (run_op_pending (Publish event_type text) st' q Hinv') as H.
  simpl in H. rewrite !app_nil_r in H. rewrite H, Hw.
  destruct (py_index (ws_queues st) event_type) as [i|]; [|done].
  by rewrite (is_registered_ws st st').
Qed.

Lemma api_restart_keeps_sessions_witness :
  let st := listening calm in
  let st' := fst (api_restart calm empty_request st) in
  ws_queues st' = ws_queues st ∧
  (∀ q, pending st q `prefix_of` pending st' q) ∧
  (∀ q, is_registered st LOG q = false → pending st' q = pending st q) ∧
  (∀ event_type text q,
     pending (fst (add_ws_event event_type text st')) q =
       pending st' q ++
         match py_index (ws_queues st) event_type with
         | Some i => if is_registered st i q then [text] else []
         | None => []
         end).
Proof.
  exact (api_restart_keeps_sessions calm empty_request (listening calm)
           (bus_inv_listening calm)).
Defined.

(* ===================================================================== *)
(** ** The HTTP handlers and the observer: the statements *)
(* ===================================================================== *)

Section Handlers.

Variable X : External.

Lemma assert_core_none st :
  core st = None → assert_core st = (st, Raise (AssertionError EmptyString)).
Proof. intros H. unfold assert_core, bind, get_state. by rewrite H. Qed.

(** A view that reads [core] starts with the assertion. *)
Lemma view_asserts r req st :
  reads_core r = true → core st = None →
  view_of X r req st = (st, Raise (AssertionError EmptyString)).
Proof.
  intros Hr Hcore. pose proof (assert_core_none st Hcore) as Ha.
  destruct r; try done; simpl;
    unfold api_restart, api_text_to_intent, api_speech_to_intent,
      api_stop_recording, api_speech_to_text, api_other;
    by rewrite (bind_raise _ _ _ _ _ Ha).
Qed.

(** The activities without a call [add_ws_event(WS_EVENT_INTENT, ...)] only
    log, or are steps of a session. *)
Lemma perform_quiet_or_session a st :
  bus_inv st → publishes_intent a = false →
  quiet st (fst (perform X a st)) ∨
  (∀ q, ∃ k, pending (fst (perform X a st)) q = drop k (pending st q)).
Proof.
  intros Hinv Hp. destruct a as [m|msg|r req|et ws|q'|et ws| ]; try done.
  - left. simpl. by apply respects_quiet_log.
  - left. simpl. rewrite fst_bind_ret.
    apply respects_quiet_dispatch; [|done].
    destruct r; try done; simpl.
    + apply respects_quiet_api_restart.
    + apply respects_quiet_speech_to_text.
    + apply respects_quiet_api_other.
  - right. intros q. exists 0%nat.
    pose proof (run_op_pending (Subscribe et ws) st q Hinv) as H.
    simpl in *. by rewrite !app_nil_r in H.
  - right. intros q.
    pose proof (run_op_pending (Get q') st q Hinv) as H.
    simpl in *. rewrite !app_nil_r in H.
    case_bool_decide; [subst q'|by exists 0%nat].
    destruct (snd (queue_get q st)) as [[text|]|]; try by exists 0%nat.
    exists 1%nat. by rewrite <- H.
  - right. intros q. exists 0%nat.
    pose proof (run_op_pending (Unsubscribe et ws) st q Hinv) as H.
    simpl in *. by rewrite !app_nil_r in H.
  - left. simpl. by apply respects_quiet_shutdown.
Qed.

(** What [in_started] does with a recognized intent. *)
Lemma in_started_spec intent st :
  bus_inv st → entities_ok intent = true →
  ∃ evs slots st',
    py_iter (get_entities intent) = Ok evs ∧
    collect_slots evs [] = Ok slots ∧
    (∀ n, dict_get slots n = last_value evs n ∧
          (length (entries_for slots n) ≤ 1)%nat) ∧
    let intent' := dict_store intent (PStr "slots") (PDict slots) in
    add_slots intent = Ok intent' ∧
    in_started X (IntentRecognized intent) st =
      (st', outcome (ping X) (IntentRecognized intent')) ∧
    ws_queues st' = ws_queues st ∧
    (∀ q, is_registered st INTENT q = true →
          pending st' q = pending st q ++ [json_dumps X (PDict intent')]) ∧
    (∀ q, is_registered st INTENT q = false → is_registered st LOG q = false →
          pending st' q = pending st q).
Proof.
  intros Hinv Hok. unfold entities_ok in Hok.
  destruct (py_iter (get_entities intent)) as [evs|] eqn:Hevs; [|done].
  destruct (collect_slots_spec evs [] Hok) as (slots & Hslots & Hs).
  exists evs, slots.
  set (intent' := dict_store intent (PStr "slots") (PDict slots)).
  assert (add_slots intent = Ok intent') as Hadd.
  { unfold add_slots. rewrite Hevs. simpl. by rewrite Hslots. }
  destruct (log_handler_spec
              (log_format X ObserverLogger DEBUG (json_dumps X (PDict intent')))
              st Hinv) as (st1 & Heq1 & _ & _ & _ & Hw1 & Hl1 & Hp1 & Ho1).
  assert (bus_inv st1) as Hinv1.
  { eapply quiet_bus_inv; [|exact Hinv]. by repeat split. }
  destruct (add_ws_event_spec st1 WS_EVENT_INTENT (json_dumps X (PDict intent'))
              INTENT Hinv1 (py_index_intent st1 Hinv1))
    as (st2 & Heq2 & _ & _ & Hw2 & _ & Hl2 & Hp2).
  assert (bus_inv st2) as Hinv2.
  { pose proof (add_ws_event_inv st1 WS_EVENT_INTENT
                  (json_dumps X (PDict intent')) Hinv1) as H.
    by rewrite Heq2 in H. }
  destruct (external_spec (ping X) st2 Hinv2)
    as (st3 & Heq3 & _ & _ & _ & Hw3 & Hl3 & Hp3 & Ho3).
  exists st3. split; [done|]. split; [done|]. split.
  { intros n. destruct (Hs n) as [Hget Hu]. split; [done|]. apply Hu. simpl. lia. }
  split; [done|]. split.
  { unfold in_started. fold intent'.
    rewrite (bind_ok _ _ st st intent') by (unfold lift; by rewrite Hadd).
    rewrite (bind_ok _ _ _ _ _ Heq1), (bind_ok _ _ _ _ _ Heq2).
    unfold bind, outcome. rewrite Heq3. by destruct (returned (ping X)). }
  split; [congruence|].
  assert (∀ q, is_registered st2 LOG q = is_registered st LOG q) as Hlog.
  { intros q. rewrite (is_registered_ws st1 st2), (is_registered_ws st st1); done. }
  split.
  - intros q Hq.
    assert (is_registered st LOG q = false) as Hnl.
    { by apply (registered_once st INTENT LOG). }
    rewrite Ho3 by (by rewrite Hlog).
    rewrite Hp2, (is_registered_ws st st1), Hq by done.
    by rewrite Ho1.
  - intros q Hq Hnl.
    rewrite Ho3 by (by rewrite Hlog).
    rewrite Hp2, (is_registered_ws st st1), Hq by done.
    by rewrite app_nil_r, Ho1.
Qed.

End Handlers.

(** C5, as the claim states it, fails: a request to [/api/text-to-intent],
    which is not a notification of the engine to its observer, puts a text
    on the queue of a session that listens to intents. *)
Lemma api_text_to_intent_publishes_intent :
  let a := HttpRequest ApiTextToIntent (mkRequest "turn on the light" ∅) in
  let st := listening calm in
  from_engine a = false ∧
  is_registered st INTENT 0 = true ∧
  pending st 0 = [] ∧
  pending (fst (perform calm a st)) 0 =
    [show (PDict [(PStr "text", PStr "turn on the light");
                  (PStr "entities", PList []);
                  (PStr "speech_confidence", PInt 1);
                  (PStr "time_sec", PInt 0)])].
Proof. vm_compute. done. Qed.

(** C5, amended.  The texts on the intent channel come from the observer's
    [in_started] and from the three HTTP handlers that publish the intent
    they recognized ([api_text_to_intent], [api_speech_to_intent],
    [api_stop_recording]); no other activity of the process puts a text on
    a queue registered for intents: it leaves such a queue as it is, or
    takes texts from its front.  Log lines are published by any part of the
    process. *)
Theorem only_intent_publishers_reach_intent_queues
    (X : External) (a : Activity) (st : State) (q : Qid) :
  bus_inv st → publishes_intent a = false →
  is_registered st INTENT q = true →
  ∃ k, pending (fst (perform X a st)) q = drop k (pending st q).
Proof.
  intros Hinv Hp Hq.
  destruct (perform_quiet_or_session X a st Hinv Hp) as [(_ & _ & _ & Ho)|H]; [|done].
  exists 0%nat. simpl. apply Ho. by apply (registered_once st INTENT LOG).
Qed.

Lemma only_intent_publishers_reach_intent_queues_witness :
  ∃ k, pending (fst (perform calm (HttpRequest ApiRestart empty_request)
                       (listening calm))) 0 =
       drop k (pending (listening calm) 0).
Proof.
  apply (only_intent_publishers_reach_intent_queues calm
           (HttpRequest ApiRestart empty_request) (listening calm) 0%nat
           (bus_inv_listening calm));
    vm_compute; reflexivity.
Defined.

(** C8, as the claim states it, fails: with [core] null the view faults on
    its assertion, and what the caller gets is the answer Flask gives to any
    exception, status 500 with the text of the exception, here empty. *)
Lemma null_core_faults :
  core init_state = None ∧
  snd (api_restart calm empty_request init_state) =
    Raise (AssertionError EmptyString) ∧
  snd (dispatch calm (api_restart calm) empty_request init_state) =
    Ok (mkResponse EmptyString 500).
Proof. vm_compute. done. Qed.

(** C8, amended.  With [core] null, every view that reads [core] raises
    [AssertionError] on its first use of it, before any call to the engine
    and with the state as it was; Flask's error handler logs the exception
    and answers with status 500 and the empty text of the exception.
    Nothing but the log line is changed, so the request can be sent again. *)
Theorem null_core_is_an_assertion_error
    (X : External) (r : Route) (req : Request) (st : State) :
  bus_inv st → core st = None → reads_core r = true →
  view_of X r req st = (st, Raise (AssertionError EmptyString)) ∧
  ∃ st', dispatch X (view_of X r) req st = (st', Ok (mkResponse EmptyString 500)) ∧
         logs_only st st'.
Proof.
  intros Hinv Hcore Hr.
  pose proof (view_asserts X r req st Hr Hcore) as Hview.
  split; [done|]. unfold dispatch. rewrite Hview.
  unfold handle_error, logger_exception.
  destruct (log_handler_spec (log_exception X AppLogger (AssertionError EmptyString))
              st Hinv) as (st' & Heq & Hlogs).
  exists st'. by rewrite (bind_ok _ _ _ _ _ Heq).
Qed.

Lemma null_core_is_an_assertion_error_witness :
  view_of calm ApiTextToIntent empty_request init_state =
    (init_state, Raise (AssertionError EmptyString)) ∧
  ∃ st', dispatch calm (view_of calm ApiTextToIntent) empty_request init_state =
           (st', Ok (mkResponse EmptyString 500)) ∧
         logs_only init_state st'.
Proof.
  exact (null_core_is_an_assertion_error calm ApiTextToIntent empty_request
           init_state bus_inv_init eq_refl eq_refl).
Defined.



(** C10. When the entity list of a recognized intent holds several entities
    of one name, the ["slots"] dictionary of the text published on the
    intent channel has one entry for that name, and its value is that of the
    last of them in the list; the earlier values are overwritten without an
    error. *)
Theorem last_entity_of_a_name_wins
    (X : External) (intent : Dict) (st : State)
    (earlier later : list PyVal) (ev : PyVal) :
  bus_inv st →
  py_iter (get_entities intent) = Ok (earlier ++ ev :: later) →
  forallb entity_ok (earlier ++ ev :: later) = true →
  forallb (fun ev' => negb (key_eqb (entity_field "entity" ev')
                              (entity_field "entity" ev))) later = true →
  ∃ slots,
    let intent' := dict_store intent (PStr "slots") (PDict slots) in
    dict_get slots (entity_field "entity" ev) = Some (entity_field "value" ev) ∧
    length (entries_for slots (entity_field "entity" ev)) = 1%nat ∧
    add_slots intent = Ok intent' ∧
    ∀ q, is_registered st INTENT q = true →
         pending (fst (in_started X (IntentRecognized intent) st)) q =
           pending st q ++ [json_dumps X (PDict intent')].
Proof.
  intros Hinv Hevs Hok Hlater.
  assert (entities_ok intent = true) as Hwf.
  { unfold entities_ok. by rewrite Hevs. }
  destruct (in_started_spec X intent st Hinv Hwf)
    as (evs & slots & st' & Hevs' & _ & Hs & Hadd & Heq & _ & Hin & _).
  rewrite Hevs in Hevs'. injection Hevs' as <-.
  exists slots. cbv zeta in *.
  assert (hashable (entity_field "entity" ev) = true) as Hh.
  { rewrite forallb_app in Hok. apply andb_prop in Hok as [_ Hok].
    simpl in Hok. apply andb_prop in Hok as [Hev _].
    by destruct (entity_ok_getitem ev Hev) as (_ & _ & ?). }
  destruct (Hs (entity_field "entity" ev)) as [Hget Hu].
  rewrite last_value_app in Hget by done.
  split; [done|]. split.
  { pose proof (dict_get_entries _ _ _ Hget). lia. }
  split; [done|]. intros q Hq. rewrite Heq. simpl. by apply Hin.
Qed.

Lemma last_entity_of_a_name_wins_witness :
  ∃ slots,
    let intent' := dict_store demo_intent (PStr "slots") (PDict slots) in
    dict_get slots (PStr "name") = Some (PStr "tv") ∧
    length (entries_for slots (PStr "name")) = 1%nat ∧
    add_slots demo_intent = Ok intent' ∧
    ∀ q, is_registered (listening calm) INTENT q = true →
         pending (fst (in_started calm (IntentRecognized demo_intent)
                         (listening calm))) q =
           pending (listening calm) q ++ [json_dumps calm (PDict intent')].
Proof.
  exact (last_entity_of_a_name_wins calm demo_intent (listening calm)
           [entity "name" "lamp"; entity "state" "on"] [] (entity "name" "tv")
           (bus_inv_listening calm) eq_refl eq_refl eq_refl).
Defined.

(** The intent of the example as [in_started] publishes it. *)
Example demo_intent_published :
  pending (fst (in_started calm (IntentRecognized demo_intent) (listening calm))) 0
  = [show (PDict (demo_intent ++
        [(PStr "slots", PDict [(PStr "name", PStr "tv"); (PStr "state", PStr "on")])]))].
Proof. vm_compute. done. Qed.

(* ===================================================================== *)
(** ** More on the event bus *)
(* ===================================================================== *)

Lemma set_queues_same st : set_queues (queues st) st = st.
Proof. by destruct st. Qed.

Lemma puts_prefix text qs h q :
  default [] (h !! q) `prefix_of`
  default [] (foldr (queue_put text) h qs !! q).
Proof.
  induction qs as [|q0 qs IH]; simpl; [done|].
  etrans; [exact IH|]. generalize (foldr (queue_put text) h qs). intros h'.
  unfold queue_put. destruct (decide (q0 = q)) as [->|Hne].
  - rewrite list_lookup_alter_eq.
    destruct (h' !! q); simpl; [|done]. by apply prefix_app_r.
  - by rewrite list_lookup_alter_ne.
Qed.

Lemma add_ws_event_frame st event_type text :
  let st' := fst (add_ws_event event_type text st) in
  core st' = core st ∧ engines st' = engines st ∧
  ws_queues st' = ws_queues st ∧ environ st' = environ st ∧
  length (queues st') = length (queues st) ∧
  (∀ q, pending st q `prefix_of` pending st' q).
Proof.
  unfold add_ws_event.
  destruct (py_index (ws_queues st) event_type) as [i|]; simpl.
  - split; [done|]. split; [done|]. split; [done|]. split; [done|].
    split; [apply puts_length|]. intros q. apply puts_prefix.
  - repeat split; done.
Qed.

(** X1. In any state: an event type that is no index of [ws_queues] makes
    [add_ws_event] raise [IndexError] and change nothing; with no
    subscriber in the registry it returns and changes nothing; and in
    every case it leaves the engine handle, the engines, the registries
    and the environment alone, creates no queue and only appends to
    queues. *)
Theorem add_ws_event_edges (st : State) (event_type : Z) (text : string) :
  let st' := fst (add_ws_event event_type text st) in
  match py_index (ws_queues st) event_type with
  | None => add_ws_event event_type text st = (st, Raise IndexError)
  | Some i =>
      snd (add_ws_event event_type text st) = Ok tt ∧
      (registry st i = ∅ → st' = st)
  end ∧
  core st' = core st ∧ engines st' = engines st ∧
  ws_queues st' = ws_queues st ∧ environ st' = environ st ∧
  length (queues st') = length (queues st) ∧
  (∀ q, pending st q `prefix_of` pending st' q).
Proof.
  intros st'. split; [|apply add_ws_event_frame].
  subst st'. unfold add_ws_event.
  destruct (py_index (ws_queues st) event_type) as [i|] eqn:Hi; simpl; [|done].
  split; [done|]. fold (registry st i). intros ->.
  rewrite map_to_list_empty. simpl. apply set_queues_same.
Qed.

Lemma puts_commute a b qs1 qs2 h :
  (∀ q, q ∈ qs1 → q ∉ qs2) →
  foldr (queue_put a) (foldr (queue_put b) h qs2) qs1 =
  foldr (queue_put b) (foldr (queue_put a) h qs1) qs2.
Proof.
  intros Hdis. induction qs2 as [|q2 qs2 IH2]; simpl; [done|].
  rewrite <- IH2 by (intros q Hq; specialize (Hdis q Hq); set_solver).
  assert (q2 ∉ qs1) as Hq2 by (intros Hin; apply (Hdis q2 Hin); set_solver).
  clear IH2 Hdis. generalize (foldr (queue_put b) h qs2). intros h'.
  induction qs1 as [|q1 qs1 IH1]; simpl; [done|].
  apply not_elem_of_cons in Hq2 as [Hne Hq2]. rewrite IH1 by done.
  unfold queue_put. by apply list_alter_alter_ne.
Qed.

(** X2. Publications to the two channels commute: an intent event and a
    log line published in either order leave the same state. *)
Theorem publications_to_two_channels_commute
    (st : State) (e1 e2 : Z) (i j : nat) (a b : string) :
  bus_inv st →
  py_index (ws_queues st) e1 = Some i →
  py_index (ws_queues st) e2 = Some j →
  i ≠ j →
  fst (add_ws_event e2 b (fst (add_ws_event e1 a st))) =
  fst (add_ws_event e1 a (fst (add_ws_event e2 b st))).
Proof.
  intros Hinv Hi Hj Hne. unfold add_ws_event. rewrite Hi, Hj. simpl.
  rewrite Hi, Hj. simpl. unfold set_queues. simpl. f_equal.
  fold (registry st i) (registry st j). fold (subscribers st i) (subscribers st j).
  symmetry. apply puts_commute. intros q Hq Hq'.
  pose proof (registered_once st i j q Hinv) as H.
  unfold is_registered in H.
  rewrite bool_decide_eq_true, bool_decide_eq_false in H. by apply H.
Qed.

Lemma publications_to_two_channels_commute_witness :
  fst (add_ws_event WS_EVENT_LOG "line"
         (fst (add_ws_event WS_EVENT_INTENT "intent" (listening calm)))) =
  fst (add_ws_event WS_EVENT_INTENT "intent"
         (fst (add_ws_event WS_EVENT_LOG "line" (listening calm)))).
Proof.
  apply (publications_to_two_channels_commute (listening calm)
           WS_EVENT_INTENT WS_EVENT_LOG INTENT LOG "intent" "line"
           (bus_inv_listening calm)); [reflexivity|reflexivity|].
  unfold INTENT, LOG. lia.
Defined.

Lemma set_ws_queues_same st : set_ws_queues (ws_queues st) st = st.
Proof. by destruct st. Qed.

(** X3. A websocket that is not registered, once registered and then
    removed, leaves the registries exactly as they were: both steps
    return, and the only trace is the new, empty queue object, which no
    registry names. *)
Theorem subscribe_then_unsubscribe
    (st : State) (event_type : Z) (i : nat) (ws : Ws) :
  py_index (ws_queues st) event_type = Some i →
  registry st i !! ws = None →
  let entered := events_subscribe event_type ws st in
  let left := events_unsubscribe event_type ws (fst entered) in
  snd entered = Ok (length (queues st)) ∧
  snd left = Ok tt ∧
  ws_queues (fst left) = ws_queues st ∧
  queues (fst left) = queues st ++ [[]] ∧
  (∀ q, pending (fst left) q = pending st q).
Proof.
  intros Hi Hws entered left. subst entered left.
  pose proof (py_index_lt _ _ _ Hi) as Hlt.
  unfold events_subscribe. simpl. rewrite Hi. simpl.
  unfold events_unsubscribe. simpl.
  assert (py_index (alter (fun r : gmap nat nat => <[ws:=length (queues st)]> r) i
                      (ws_queues st)) event_type = Some i) as ->.
  { unfold py_index in *. by rewrite length_alter. }
  rewrite list_lookup_alter_eq.
  destruct (ws_queues st !! i) as [r|] eqn:Hr;
    [|apply lookup_ge_None in Hr; lia].
  unfold registry in Hws. rewrite Hr in Hws. simpl in *.
  rewrite lookup_insert_eq. simpl.
  split; [done|]. split; [done|]. split.
  - rewrite list_alter_alter_eq.
    apply list_eq. intros k. destruct (decide (k = i)) as [->|Hk].
    + rewrite list_lookup_alter_eq, Hr. simpl. f_equal.
      by apply delete_insert_id.
    + by rewrite list_lookup_alter_ne.
  - split; [done|]. intros q. unfold pending. simpl.
    destruct (decide (q < length (queues st))%nat).
    + by rewrite lookup_app_l.
    + rewrite (lookup_ge_None_2 (queues st)) by lia.
      rewrite lookup_app_r by lia.
      by destruct (q - length (queues st))%nat as [|[|?]].
Qed.

Lemma subscribe_then_unsubscribe_witness :
  let entered := events_subscribe WS_EVENT_LOG 9 (listening calm) in
  let left := events_unsubscribe WS_EVENT_LOG 9 (fst entered) in
  snd entered = Ok (length (queues (listening calm))) ∧
  snd left = Ok tt ∧
  ws_queues (fst left) = ws_queues (listening calm) ∧
  queues (fst left) = queues (listening calm) ++ [[]] ∧
  (∀ q, pending (fst left) q = pending (listening calm) q).
Proof.
  apply (subscribe_then_unsubscribe (listening calm) WS_EVENT_LOG LOG 9%nat);
    vm_compute; reflexivity.
Defined.

(** X4. Registering a websocket that is registered already replaces its
    queue: the new queue is the one the registry names and the one
    later events reach, and the old queue, which a handler may still be
    waiting on, is registered no more and gets nothing further. *)
Theorem resubscribing_orphans_the_old_queue
    (st : State) (event_type : Z) (i : nat) (ws : Ws) (old : Qid) (text : string) :
  bus_inv st →
  py_index (ws_queues st) event_type = Some i →
  registry st i !! ws = Some old →
  let fresh := length (queues st) in
  let st1 := fst (events_subscribe event_type ws st) in
  let st2 := fst (add_ws_event event_type text st1) in
  snd (events_subscribe event_type ws st) = Ok fresh ∧
  registry st1 i !! ws = Some fresh ∧
  is_registered st1 i old = false ∧
  pending st2 old = pending st old ∧
  pending st2 fresh = [text].
Proof.
  intros Hinv Hi Hold fresh st1 st2.
  pose proof (events_subscribe_inv st event_type ws Hinv) as Hinv1.
  pose proof (events_subscribe_pending st event_type ws) as Hpend.
  fold st1 in Hinv1, Hpend.
  pose proof (py_index_lt _ _ _ Hi) as Hlt.
  assert (events_subscribe event_type ws st =
            (set_ws_queues (alter (fun r => <[ws := fresh]> r) i (ws_queues st))
               (set_queues (queues st ++ [[]]) st), Ok fresh)) as Heq.
  { unfold events_subscribe. simpl. by rewrite Hi. }
  assert (registry st1 i = <[ws := fresh]> (registry st i)) as Hreg.
  { unfold st1. rewrite Heq. simpl.
    rewrite (registry_alter (set_queues (queues st ++ [[]]) st) i i) by done.
    by rewrite decide_True. }
  assert (ws_queues st1 = alter (fun r => <[ws := fresh]> r) i (ws_queues st)) as Hws.
  { unfold st1. by rewrite Heq. }
  destruct Hinv as (Hlen & Hex & Hinj).
  assert (old < fresh)%nat as Hlo by (by eapply Hex).
  assert (is_registered st1 i old = false) as Hnot.
  { apply bool_decide_eq_false. intros Hin.
    apply elem_of_subscribers in Hin as [w Hw]. rewrite Hreg in Hw.
    destruct (decide (w = ws)) as [->|Hne].
    - rewrite lookup_insert_eq in Hw. injection Hw as Hw. lia.
    - rewrite lookup_insert_ne in Hw by done.
      by destruct (Hinj i i w ws old Hw Hold). }
  assert (is_registered st1 i fresh = true) as Hyes.
  { apply bool_decide_eq_true, elem_of_subscribers. exists ws.
    rewrite Hreg. apply lookup_insert_eq. }
  assert (py_index (ws_queues st1) event_type = Some i) as Hi1.
  { rewrite Hws. unfold py_index in *. by rewrite length_alter. }
  destruct (add_ws_event_spec st1 event_type text i Hinv1 Hi1)
    as (st2' & Heq2 & _ & _ & _ & _ & _ & Hp).
  assert (st2 = st2') as -> by (unfold st2; by rewrite Heq2).
  split; [by rewrite Heq|]. split; [rewrite Hreg; apply lookup_insert_eq|].
  split; [done|].
  rewrite !Hp, Hnot, Hyes, !Hpend, app_nil_r. split; [done|].
  unfold pending. by rewrite (lookup_ge_None_2 (queues st)) by (unfold fresh; lia).
Qed.

Lemma resubscribing_orphans_the_old_queue_witness :
  let st := listening calm in
  let fresh := length (queues st) in
  let st1 := fst (events_subscribe WS_EVENT_INTENT 7 st) in
  let st2 := fst (add_ws_event WS_EVENT_INTENT "TurnOn" st1) in
  snd (events_subscribe WS_EVENT_INTENT 7 st) = Ok fresh ∧
  registry st1 INTENT !! 7%nat = Some fresh ∧
  is_registered st1 INTENT 0 = false ∧
  pending st2 0 = pending st 0 ∧
  pending st2 fresh = ["TurnOn"].
Proof.
  apply (resubscribing_orphans_the_old_queue (listening calm) WS_EVENT_INTENT
           INTENT 7%nat 0%nat "TurnOn" (bus_inv_listening calm));
    vm_compute; reflexivity.
Defined.

(* ===================================================================== *)
(** ** What every activity keeps *)
(* ===================================================================== *)

Lemma steady_refl st : steady st st.
Proof. repeat split; done. Qed.

Lemma steady_trans st1 st2 st3 : steady st1 st2 → steady st2 st3 → steady st1 st3.
Proof.
  intros (Hw1 & Hl1 & Hp1) (Hw2 & Hl2 & Hp2).
  split; [congruence|]. split; [congruence|]. intros q. etrans; eauto.
Qed.

Global Instance steady_preorder : PreOrder steady.
Proof. split; [exact steady_refl | exact steady_trans]. Qed.

Lemma steady_bus_inv st st' : steady st st' → bus_inv st → bus_inv st'.
Proof.
  intros (Hw & Hl & _) (Hlen & Hlt & Hinj). unfold bus_inv, registry in *.
  rewrite Hw, Hl. done.
Qed.

Lemma quiet_steady st st' : quiet st st' → steady st st'.
Proof. intros (Hw & Hl & Hp & _). by repeat split. Qed.

Lemma respects_steady_quiet {A} (m : M A) : respects quiet m → respects steady m.
Proof. intros H st Hinv. by apply quiet_steady, H. Qed.

Lemma respects_steady_add_ws_event event_type text :
  respects steady (add_ws_event event_type text).
Proof.
  intros st _.
  destruct (add_ws_event_frame st event_type text) as (_ & _ & Hw & _ & Hl & Hp).
  by repeat split.
Qed.

Ltac steady_step :=
  repeat first
    [ solve [apply respects_steady_quiet; quiet_step]
    | apply respects_steady_add_ws_event
    | apply (respects_bind steady steady_bus_inv); [|intros]
    | apply (respects_ret steady)
    | apply (respects_raise steady)
    | apply (respects_lift steady) ].

Section SteadyProcess.

Variable X : External.

Lemma respects_steady_assert_core : respects steady assert_core.
Proof. apply respects_steady_quiet, respects_quiet_assert_core. Qed.

Lemma respects_steady_publish_and_handle c no_hass intent :
  respects steady (publish_and_handle X c no_hass intent).
Proof.
  unfold publish_and_handle, logger_debug.
  apply (respects_bind steady steady_bus_inv); [steady_step|]. intros _.
  apply (respects_bind steady steady_bus_inv); [steady_step|]. intros _.
  apply (respects_bind steady steady_bus_inv); [|intros; steady_step].
  destruct no_hass; steady_step.
Qed.

Lemma respects_steady_view r req : respects steady (view_of X r req).
Proof.
  destruct r; simpl.
  - apply respects_steady_quiet, respects_quiet_api_restart.
  - unfold api_text_to_intent.
    apply (respects_bind steady steady_bus_inv); [apply respects_steady_assert_core|].
    intros c. apply (respects_bind steady steady_bus_inv); [steady_step|].
    intros intent. apply respects_steady_publish_and_handle.
  - unfold api_speech_to_intent, logger_debug.
    apply (respects_bind steady steady_bus_inv); [apply respects_steady_assert_core|].
    intros c. apply (respects_bind steady steady_bus_inv); [steady_step|].
    intros t. apply (respects_bind steady steady_bus_inv); [steady_step|].
    intros _. apply (respects_bind steady steady_bus_inv); [steady_step|].
    intros intent. apply respects_steady_publish_and_handle.
  - unfold api_stop_recording, logger_debug.
    apply (respects_bind steady steady_bus_inv); [apply respects_steady_assert_core|].
    intros c. apply (respects_bind steady steady_bus_inv); [steady_step|].
    intros audio. apply (respects_bind steady steady_bus_inv); [steady_step|].
    intros _. apply (respects_bind steady steady_bus_inv); [steady_step|].
    intros t. apply (respects_bind steady steady_bus_inv); [steady_step|].
    intros _. apply (respects_bind steady steady_bus_inv); [steady_step|].
    intros intent. apply respects_steady_publish_and_handle.
  - apply respects_steady_quiet, respects_quiet_speech_to_text.
  - apply respects_steady_quiet, respects_quiet_api_other.
  - unfold api_ping. apply (respects_ret steady).
Qed.

Lemma respects_steady_dispatch r req :
  respects steady (dispatch X (view_of X r) req).
Proof.
  intros st Hinv. unfold dispatch.
  pose proof (respects_steady_view r req st Hinv) as Hview.
  destruct (view_of X r req st) as [st1 [resp|err]]; simpl in *; [done|].
  etrans; [exact Hview|]. apply quiet_steady.
  apply respects_quiet_handle_error. by eapply steady_bus_inv.
Qed.

Lemma respects_steady_in_started message : respects steady (in_started X message).
Proof.
  destruct message as [intent|]; simpl; [|apply (respects_ret steady)].
  apply (respects_bind steady steady_bus_inv); [steady_step|]. intros i'.
  apply (respects_bind steady steady_bus_inv); [steady_step|]. intros _.
  apply (respects_bind steady steady_bus_inv); [steady_step|]. intros _.
  steady_step.
Qed.

Lemma perform_steady a st :
  bus_inv st → is_session a = false → steady st (fst (perform X a st)).
Proof.
  intros Hinv Hs. destruct a as [m|msg|r req|et ws|q'|et ws| ]; try done; simpl.
  - rewrite fst_bind_ret. by apply respects_steady_in_started.
  - by apply respects_steady_quiet; [apply respects_quiet_log|].
  - rewrite fst_bind_ret. by apply respects_steady_dispatch.
  - by apply respects_steady_quiet; [apply respects_quiet_shutdown|].
Qed.


End SteadyProcess.

(** X5. Only a websocket session changes who is registered.  Every other
    activity (a request to any route, a notification of the observer, a
    log record, the exit hook), however it ends, leaves the registries as
    they are, creates no queue, and keeps in every queue what was waiting,
    in its order, at the front. *)
Theorem only_sessions_change_the_registries
    (X : External) (a : Activity) (st : State) :
  bus_inv st → is_session a = false →
  let st' := fst (perform X a st) in
  ws_queues st' = ws_queues st ∧
  length (queues st') = length (queues st) ∧
  (∀ q, pending st q `prefix_of` pending st' q).
Proof. intros Hinv Hs. by apply perform_steady. Qed.

Lemma only_sessions_change_the_registries_witness :
  let st := listening calm in
  let st' := fst (perform calm (EngineNotifies (IntentRecognized demo_intent)) st) in
  ws_queues st' = ws_queues st ∧
  length (queues st') = length (queues st) ∧
  (∀ q, pending st q `prefix_of` pending st' q).
Proof.
  exact (only_sessions_change_the_registries calm
           (EngineNotifies (IntentRecognized demo_intent)) (listening calm)
           (bus_inv_listening calm) eq_refl).
Defined.


(** X7. Flask answers every request to a route: when the view returns, with
    its response and state; when it raises, with status 500 and the text
    of the exception, after logging it, the state otherwise as the view
    left it.  No exception of a view gets past the error handler. *)
Theorem every_request_is_answered
    (X : External) (r : Route) (req : Request) (st : State) :
  bus_inv st →
  let viewed := view_of X r req st in
  ∃ st' resp,
    dispatch X (view_of X r) req st = (st', Ok resp) ∧
    match snd viewed with
    | Ok resp0 => resp = resp0 ∧ st' = fst viewed
    | Raise err =>
        resp = mkResponse (str_exn X err) 500 ∧ logs_only (fst viewed) st'
    end.
Proof.
  intros Hinv viewed. subst viewed. unfold dispatch.
  pose proof (respects_steady_view X r req st Hinv) as Hview.
  destruct (view_of X r req st) as [st1 [resp|err]]; simpl in *; [by eauto|].
  unfold handle_error, logger_exception.
  destruct (log_handler_spec (log_exception X AppLogger err) st1) as (st2 & Heq & H2).
  { by eapply steady_bus_inv. }
  exists st2, (mkResponse (str_exn X err) 500).
  by rewrite (bind_ok _ _ _ _ _ Heq).
Qed.

Lemma every_request_is_answered_witness :
  ∃ st' resp,
    dispatch stubborn (view_of stubborn ApiRestart) empty_request (running stubborn)
      = (st', Ok resp) ∧
    resp = mkResponse "audio device busy" 500 ∧
    logs_only (fst (view_of stubborn ApiRestart empty_request (running stubborn))) st'.
Proof.
  exact (every_request_is_answered stubborn ApiRestart empty_request
           (running stubborn) (bus_inv_running stubborn)).
Defined.

Lemma log_handler_pending msg st q :
  bus_inv st →
  pending (fst (log_handler msg st)) q =
  pending st q ++ (if is_registered st LOG q then [msg] else []).
Proof.
  intros Hinv. unfold log_handler.
  destruct (add_ws_event_spec st WS_EVENT_LOG msg LOG Hinv (py_index_log st Hinv))
    as (st' & -> & _ & _ & _ & _ & _ & Hp).
  apply Hp.
Qed.

(** X8. Log records reach a session that listens to the log each once and
    in the order in which they were written, behind what was waiting; a
    queue that is not registered for the log gets none of them. *)
Theorem log_records_arrive_in_order (msgs : list string) (st : State) (q : Qid) :
  bus_inv st →
  let st' := fst (for_each msgs log_handler st) in
  snd (for_each msgs log_handler st) = Ok tt ∧
  pending st' q = pending st q ++ (if is_registered st LOG q then msgs else []).
Proof.
  revert st. induction msgs as [|msg msgs IH]; intros st Hinv; simpl.
  - split; [done|]. destruct (is_registered st LOG q); by rewrite app_nil_r.
  - destruct (log_handler_spec msg st Hinv) as (st1 & Heq & H1).
    pose proof (log_handler_pending msg st q Hinv) as Hp. rewrite Heq in Hp.
    simpl in Hp. rewrite (bind_ok _ _ _ _ _ Heq).
    destruct (IH st1) as [Hok Hrest].
    { eapply quiet_bus_inv; [by apply logs_only_quiet|done]. }
    split; [done|]. rewrite Hrest, Hp.
    destruct H1 as (_ & _ & _ & Hw & _).
    rewrite (is_registered_ws st st1) by done.
    destruct (is_registered st LOG q); by rewrite <- app_assoc.
Qed.

Lemma log_records_arrive_in_order_witness :
  let st' := fst (for_each ["one"; "two"; "three"] log_handler (listening calm)) in
  snd (for_each ["one"; "two"; "three"] log_handler (listening calm)) = Ok tt ∧
  pending st' 1 = pending (listening calm) 1 ++
    (if is_registered (listening calm) LOG 1 then ["one"; "two"; "three"] else []).
Proof.
  exact (log_records_arrive_in_order ["one"; "two"; "three"] (listening calm) 1%nat
           (bus_inv_listening calm)).
Defined.

(* ===================================================================== *)
(** ** More on the observer *)
(* ===================================================================== *)

Lemma collect_slots_not_ok evs acc :
  forallb entity_ok evs = false →
  ∃ err, (err = KeyError ∨ err = TypeError) ∧ collect_slots evs acc = Raise err.
Proof.
  revert acc. induction evs as [|ev evs IH]; intros acc Hok; simpl in *; [done|].
  destruct (entity_ok ev) eqn:Hev; simpl in Hok.
  - destruct (entity_ok_getitem ev Hev) as (-> & -> & Hh). simpl.
    unfold dict_setitem. rewrite Hh. simpl. by apply IH.
  - clear IH Hok. destruct ev as [| | | | | |d]; simpl in *; eauto.
    destruct (dict_get d (PStr "value")); simpl; [|by eauto].
    destruct (dict_get d (PStr "entity")) as [name|]; simpl; [|by eauto].
    unfold dict_setitem. rewrite Hev. simpl. eauto.
Qed.

Lemma add_slots_not_ok intent :
  entities_ok intent = false →
  ∃ err, (err = KeyError ∨ err = TypeError) ∧ add_slots intent = Raise err.
Proof.
  unfold entities_ok, add_slots. intros Hok.
  destruct (py_iter (get_entities intent)) as [evs|err] eqn:Hevs; simpl.
  - destruct (collect_slots_not_ok evs [] Hok) as (err & Herr & ->). eauto.
  - exists err. split; [|done].
    destruct (get_entities intent); simpl in Hevs; try done;
      injection Hevs as <-; eauto.
Qed.

(** X9. When the entities of a recognized intent cannot be flattened (the
    entity list is no list, an entity is no dictionary or lacks its
    ["entity"] or ["value"], or a name is unhashable), [in_started] raises
    [KeyError] or [TypeError] before it logs or publishes anything: no
    queue gets a text and the state is as it was. *)
Theorem malformed_entities_publish_nothing
    (X : External) (intent : Dict) (st : State) :
  entities_ok intent = false →
  ∃ err, (err = KeyError ∨ err = TypeError) ∧
    in_started X (IntentRecognized intent) st = (st, Raise err).
Proof.
  intros Hok. destruct (add_slots_not_ok intent Hok) as (err & Herr & Hadd).
  exists err. split; [done|]. unfold in_started.
  rewrite (bind_raise _ _ st st err); [done|]. unfold lift. by rewrite Hadd.
Qed.

Lemma malformed_entities_publish_nothing_witness :
  ∃ err, (err = KeyError ∨ err = TypeError) ∧
    in_started calm (IntentRecognized broken_intent) (listening calm) =
      (listening calm, Raise err).
Proof.
  exact (malformed_entities_publish_nothing calm broken_intent (listening calm)
           eq_refl).
Defined.

Lemma dict_store_twice d k v :
  key_eqb k k = true → dict_store (dict_store d k v) k v = dict_store d k v.
Proof.
  intros Hk. induction d as [|[k' v'] d IH]; simpl.
  - by rewrite Hk.
  - destruct (key_eqb k' k) eqn:Hk'; simpl; rewrite Hk'; [done|]. by rewrite IH.
Qed.

(** X10. Flattening touches nothing but the ["slots"] entry of the
    intent: every other key keeps its value, the entity list among them,
    so that flattening the result again (the observer changes the message
    in place, and may be told of it again) gives the same intent. *)
Theorem add_slots_only_sets_slots (intent : Dict) :
  entities_ok intent = true →
  ∃ intent',
    add_slots intent = Ok intent' ∧
    (∀ k, key_eqb (PStr "slots") k = false → dict_get intent' k = dict_get intent k) ∧
    get_entities intent' = get_entities intent ∧
    add_slots intent' = Ok intent'.
Proof.
  intros Hok. unfold entities_ok in Hok.
  destruct (py_iter (get_entities intent)) as [evs|] eqn:Hevs; [|done].
  destruct (collect_slots_spec evs [] Hok) as (slots & Hslots & _).
  exists (dict_store intent (PStr "slots") (PDict slots)).
  assert (get_entities (dict_store intent (PStr "slots") (PDict slots))
          = get_entities intent) as Hent.
  { unfold get_entities. by rewrite dict_get_store. }
  split; [unfold add_slots; rewrite Hevs; simpl; by rewrite Hslots|].
  split; [intros k Hk; by rewrite dict_get_store, Hk|]. split; [done|].
  unfold add_slots. rewrite Hent, Hevs. simpl. rewrite Hslots. simpl.
  by rewrite dict_store_twice.
Qed.

Lemma add_slots_only_sets_slots_witness :
  ∃ intent',
    add_slots demo_intent = Ok intent' ∧
    (∀ k, key_eqb (PStr "slots") k = false →
          dict_get intent' k = dict_get demo_intent k) ∧
    get_entities intent' = get_entities demo_intent ∧
    add_slots intent' = Ok intent'.
Proof. exact (add_slots_only_sets_slots demo_intent eq_refl). Defined.

Lemma dict_store_keys d k v : (dict_store d k v).*1 = add_key (d.*1) k.
Proof.
  unfold add_key. induction d as [|[k' v'] d IH]; [done|].
  cbn [dict_store]. rewrite fmap_cons. cbn [existsb fst].
  destruct (key_eqb k' k); [done|]. rewrite fmap_cons, IH. cbn [fst orb].
  by destruct (existsb _ (d.*1)).
Qed.

Lemma collect_slots_keys evs acc slots :
  collect_slots evs acc = Ok slots →
  slots.*1 = foldl add_key (acc.*1) (entity_field "entity" <$> evs).
Proof.
  revert acc. induction evs as [|ev evs IH]; intros acc; simpl.
  - by intros [= ->].
  - destruct ev as [| | | | | |d]; simpl; try done.
    destruct (dict_get d (PStr "value")) as [value|]; simpl; [|done].
    destruct (dict_get d (PStr "entity")) as [name|]; simpl; [|done].
    unfold dict_setitem. destruct (hashable name); simpl; [|done].
    intros H. rewrite (IH _ H). by rewrite dict_store_keys.
Qed.

(** X11. The keys of the ["slots"] dictionary are the names of the
    entities, each once, in the order in which they first occur in the
    entity list; this is the order in which [json.dumps] writes them. *)
Theorem slots_keys_in_order_of_first_occurrence (evs : list PyVal) :
  forallb entity_ok evs = true →
  ∃ slots,
    collect_slots evs [] = Ok slots ∧
    slots.*1 = foldl add_key [] (entity_field "entity" <$> evs) ∧
    (∀ n, length (entries_for slots n) ≤ 1)%nat.
Proof.
  intros Hok. destruct (collect_slots_spec evs [] Hok) as (slots & Hslots & Hs).
  exists slots. split; [done|]. split; [by apply collect_slots_keys in Hslots|].
  intros n. apply Hs. simpl. lia.
Qed.

Lemma slots_keys_in_order_of_first_occurrence_witness :
  ∃ slots,
    collect_slots [entity "name" "lamp"; entity "state" "on"; entity "name" "tv"] []
      = Ok slots ∧
    slots.*1 = [PStr "name"; PStr "state"] ∧
    (∀ n, length (entries_for slots n) ≤ 1)%nat.
Proof.
  exact (slots_keys_in_order_of_first_occurrence
           [entity "name" "lamp"; entity "state" "on"; entity "name" "tv"] eq_refl).
Defined.

(* ===================================================================== *)
(** ** More on the engine lifecycle *)
(* ===================================================================== *)

Section LifecycleMore.

Variable X : External.

Lemma apply_settings_engine e settings st r :
  bus_inv st → engines st !! e = Some r →
  ∃ st', for_each settings (apply_setting X e) st = (st', Ok tt) ∧
    core st' = core st ∧ environ st' = environ st ∧
    length (engines st') = length (engines st) ∧
    (∀ e', e' ≠ e → engines st' !! e' = engines st !! e') ∧
    engines st' !! e =
      Some (mkEngine (e_settings r ++ ((fun kv => (fst kv, setting_value X kv)) <$> settings))
              (e_started r) (e_stopped r)) ∧
    quiet st st'.
Proof.
  revert st r. induction settings as [|kv settings IH]; intros st r Hinv Hr; simpl.
  - exists st. rewrite app_nil_r. destruct r. by repeat split.
  - unfold apply_setting at 1, logger_debug. fold (setting_value X kv).
    destruct (log_handler_spec
                (log_format X AppLogger DEBUG
                   (format_setting X (fst kv) (setting_value X kv))) st Hinv)
      as (st1 & Heq1 & Hc1 & He1 & Hv1 & Hq1).
    rewrite (bind_ok _ _ st
               (set_engines (alter (fun r0 => mkEngine
                    (e_settings r0 ++ [(fst kv, setting_value X kv)])
                    (e_started r0) (e_stopped r0)) e (engines st1)) st1) tt).
    2:{ by rewrite (bind_ok _ _ _ _ _ Heq1). }
    set (st2 := set_engines _ st1).
    assert (bus_inv st2) as Hinv2.
    { apply (bus_inv_fields st1); [done..|]. by eapply quiet_bus_inv. }
    assert (engines st2 !! e =
              Some (mkEngine (e_settings r ++ [(fst kv, setting_value X kv)])
                      (e_started r) (e_stopped r))) as Hr2.
    { unfold st2. simpl. by rewrite list_lookup_alter_eq, He1, Hr. }
    destruct (IH st2 _ Hinv2 Hr2) as (st3 & -> & Hc3 & Hv3 & Hl3 & Ho3 & Hr3 & Hq3).
    exists st3. split; [done|]. split; [by rewrite Hc3|]. split; [by rewrite Hv3|].
    split; [rewrite Hl3; unfold st2; simpl; by rewrite length_alter, He1|].
    split.
    { intros e' Hne. rewrite Ho3 by done. unfold st2. simpl.
      by rewrite list_lookup_alter_ne, He1. }
    split; [rewrite Hr3; simpl; by rewrite <- app_assoc|].
    eapply quiet_trans; [exact Hq1|]. eapply quiet_trans; [|exact Hq3].
    by apply quiet_fields.
Qed.

(** [start_rhasspy], however it ends. *)
Lemma start_rhasspy_outcome st :
  bus_inv st →
  let e := length (engines st) in
  ∃ st', start_rhasspy X st = (st', start_outcome X e) ∧
    quiet st st' ∧
    match returned (core_new X e) with
    | Raise _ =>
        core st' = core st ∧ engines st' = engines st ∧ environ st' = environ st
    | Ok _ =>
        core st' = Some e ∧
        environ st' = started_environ X e (environ st) ∧
        engines st' =
          engines st ++
            [mkEngine (command_line_settings X)
               (if is_ok (returned (create_observer X e)) then 1 else 0) 0]
    end.
Proof.
  intros Hinv e.
  assert (e = length (engines st)) as Ee by done. clearbody e.
  pose proof (respects_quiet_start_rhasspy X st Hinv) as Hquiet.
  unfold start_outcome.
  destruct (external_spec (core_new X e) st Hinv) as (st1 & Heq1 & Hc1 & He1 & Hv1 & Hq1).
  destruct (returned (core_new X e)) as [[]|err] eqn:Hnew; simpl.
  2:{ exists st1. split; [|by split].
      unfold start_rhasspy. apply bind_raise. unfold new_engine.
      rewrite (bind_ok _ _ st st st) by done. rewrite <- Ee.
      by apply bind_raise. }
  set (st2 := set_environ (started_environ X e (environ st1))
                (set_core (Some e)
                   (set_engines (engines st ++ [mkEngine [] 0 0]) st1))).
  assert (new_engine X st =
            (set_engines (engines st ++ [mkEngine [] 0 0]) st1, Ok e)) as Hne.
  { unfold new_engine. rewrite (bind_ok _ _ st st st) by done. rewrite <- Ee.
    rewrite (bind_ok _ _ _ _ _ Heq1).
    by rewrite (bind_ok _ _ _ (set_engines (engines st ++ [mkEngine [] 0 0]) st1) tt). }
  assert (bus_inv st2) as Hinv2.
  { apply (bus_inv_fields st1); [done..|]. by eapply quiet_bus_inv. }
  assert (engines st2 !! e = Some (mkEngine [] 0 0)) as Hlook.
  { unfold st2. simpl. rewrite Ee, lookup_app_r by lia. by rewrite Nat.sub_diag. }
  destruct (apply_settings_engine e (args_set X) st2 _ Hinv2 Hlook)
    as (st3 & Heq3 & Hc3 & Hv3 & Hl3 & Ho3 & Hr3 & Hq3).
  assert (bus_inv st3) as Hinv3 by (by eapply quiet_bus_inv).
  assert (engines st3 = engines st ++ [mkEngine (command_line_settings X) 0 0]) as He3.
  { apply list_eq. intros k. destruct (decide (k = e)) as [->|Hk].
    - rewrite Hr3. simpl. rewrite Ee, lookup_app_r by lia. by rewrite Nat.sub_diag.
    - rewrite Ho3 by done. unfold st2. simpl.
      destruct (decide (k < e)%nat).
      + by rewrite !lookup_app_l by lia.
      + rewrite !lookup_ge_None_2; [done|rewrite length_app; simpl; lia..]. }
  destruct (external_spec (create_observer X e) st3 Hinv3)
    as (st4 & Heq4 & Hc4 & He4 & Hv4 & Hq4).
  assert (bus_inv st4) as Hinv4 by (by eapply quiet_bus_inv).
  assert (start_rhasspy X st =
            (let* _ := external (create_observer X e) in
             let* _ := engine_start X e in logger_info X "Started") st3) as Hstart.
  { unfold start_rhasspy. rewrite (bind_ok _ _ _ _ _ Hne).
    unfold setenv, modify, bind at 1 2 3 4. simpl.
    change (set_environ _ _) with st2. by rewrite (bind_ok _ _ _ _ _ Heq3). }
  rewrite Hstart in Hquiet |- *.
  destruct (returned (create_observer X e)) as [[]|err] eqn:Hobs; simpl.
  2:{ exists st4. rewrite (bind_raise _ _ _ _ _ Heq4) in Hquiet |- *.
      split; [done|]. split; [done|].
      rewrite Hc4, Hc3, He4, He3, Hv4, Hv3. unfold st2. simpl. by rewrite Hv1. }
  rewrite (bind_ok _ _ _ _ _ Heq4) in Hquiet |- *.
  destruct (engine_start_spec X e st4 Hinv4) as (st5 & Heq5 & Hc5 & He5 & Hv5 & Hq5).
  assert (bus_inv st5) as Hinv5 by (by eapply quiet_bus_inv).
  assert (engines st5 = engines st ++ [mkEngine (command_line_settings X) 1 0]) as He5'.
  { rewrite He5, He4, He3. apply list_eq. intros k.
    destruct (decide (k = e)) as [->|Hk].
    - rewrite list_lookup_alter_eq, Ee, !lookup_app_r by lia.
      by rewrite Nat.sub_diag.
    - rewrite list_lookup_alter_ne by done.
      destruct (decide (k < e)%nat).
      + by rewrite !lookup_app_l by lia.
      + rewrite !lookup_ge_None_2; [done|rewrite length_app; simpl; lia..]. }
  destruct (returned (core_start X e)) as [[]|err] eqn:Hst; simpl.
  2:{ exists st5. rewrite (bind_raise _ _ _ _ _ Heq5) in Hquiet |- *.
      split; [done|]. split; [done|].
      rewrite Hc5, Hc4, Hc3, Hv5, Hv4, Hv3. unfold st2. simpl. by rewrite Hv1. }
  rewrite (bind_ok _ _ _ _ _ Heq5) in Hquiet |- *.
  unfold logger_info in *.
  destruct (log_handler_spec (log_format X AppLogger INFO "Started") st5 Hinv5)
    as (st6 & Heq6 & Hc6 & He6 & Hv6 & Hq6).
  exists st6. rewrite Heq6 in Hquiet |- *. split; [done|]. split; [done|].
  rewrite Hc6, Hc5, Hc4, Hc3, He6, Hv6, Hv5, Hv4, Hv3. unfold st2. simpl.
  by rewrite Hv1.
Qed.

Lemma assert_core_some st c : core st = Some c → assert_core st = (st, Ok c).
Proof. intros H. unfold assert_core, bind, get_state. by rewrite H. Qed.

(** [api_restart] once the old engine has stopped. *)
Lemma api_restart_outcome req st c r :
  bus_inv st → core st = Some c → engines st !! c = Some r →
  returned (core_shutdown X c) = Ok tt →
  let e := length (engines st) in
  ∃ st', api_restart X req st =
           (st', match start_outcome X e with
                 | Ok _ => Ok (mkResponse "Restarted Rhasspy" 200)
                 | Raise err => Raise err
                 end) ∧
    engines st' !! c = Some (stopped_once r) ∧
    match returned (core_new X e) with
    | Raise _ => core st' = Some c ∧ length (engines st') = length (engines st)
    | Ok _ =>
        core st' = Some e ∧ length (engines st') = S e ∧
        engines st' !! e =
          Some (mkEngine (command_line_settings X)
                  (if is_ok (returned (create_observer X e)) then 1 else 0) 0)
    end.
Proof.
  intros Hinv Hcore Hr Hstop e.
  assert (e = length (engines st)) as Ee by done. clearbody e.
  pose proof (lookup_lt_Some _ _ _ Hr) as Hlt.
  unfold api_restart. rewrite (bind_ok _ _ _ _ _ (assert_core_some st c Hcore)).
  unfold logger_debug.
  destruct (log_handler_spec (log_format X AppLogger DEBUG "Restarting Rhasspy")
              st Hinv) as (st1 & Heq1 & Hc1 & He1 & _ & Hq1).
  rewrite (bind_ok _ _ _ _ _ Heq1).
  assert (bus_inv st1) as Hinv1 by (by eapply quiet_bus_inv).
  destruct (engine_shutdown_spec X c st1 Hinv1) as (st2 & Heq2 & Hc2 & He2 & _ & Hq2).
  rewrite Hstop in Heq2. rewrite (bind_ok _ _ _ _ _ Heq2).
  assert (bus_inv st2) as Hinv2 by (by eapply quiet_bus_inv).
  destruct (start_rhasspy_outcome st2 Hinv2) as (st3 & Heq3 & Hq3 & H3).
  assert (length (engines st2) = e) as Hlen by (by rewrite He2, length_alter, He1).
  rewrite Hlen in Heq3, H3.
  assert (engines st2 !! c = Some (stopped_once r)) as Hr2.
  { by rewrite He2, list_lookup_alter_eq, He1, Hr. }
  assert (bus_inv st3) as Hinv3 by (by eapply quiet_bus_inv).
  destruct (start_outcome X e) as [[]|err] eqn:Hout.
  - rewrite (bind_ok _ _ _ _ _ Heq3). unfold logger_info.
    destruct (log_handler_spec (log_format X AppLogger INFO "Restarted Rhasspy")
                st3 Hinv3) as (st4 & Heq4 & Hc4 & He4 & _ & Hq4).
    rewrite (bind_ok _ _ _ _ _ Heq4). exists st4. split; [done|].
    rewrite He4, Hc4. unfold start_outcome in Hout.
    destruct (returned (core_new X e)) as [[]|err]; [|done].
    destruct H3 as (Hc3 & _ & He3). rewrite He3, Hc3. split.
    { by rewrite lookup_app_l by lia. }
    split; [done|]. split; [rewrite length_app; simpl; lia|].
    rewrite lookup_app_r by lia. by rewrite Hlen, Nat.sub_diag.
  - rewrite (bind_raise _ _ _ _ _ Heq3). exists st3. split; [done|].
    destruct (returned (core_new X e)) as [[]|err'].
    + destruct H3 as (Hc3 & _ & He3). rewrite He3, Hc3. split.
      { by rewrite lookup_app_l by lia. }
      split; [done|]. split; [rewrite length_app; simpl; lia|].
      rewrite lookup_app_r by lia. by rewrite Hlen, Nat.sub_diag.
    + destruct H3 as (Hc3 & He3 & _). rewrite He3, Hc3, Hc2, Hc1.
      split; [done|]. split; [done|]. congruence.
Qed.

End LifecycleMore.



(** X13. [start_rhasspy] assigns [core] as soon as the instance is
    constructed, before the observer is set up and the engine started.
    So when the constructor raises, [core], the engines and the
    environment are as they were; but when the observer setup or the
    start sequence raises, the exception leaves [core] naming the new
    instance that did not come up. *)
Theorem start_rhasspy_assigns_before_starting (X : External) (st : State) :
  bus_inv st →
  let e := length (engines st) in
  let st' := fst (start_rhasspy X st) in
  snd (start_rhasspy X st) = start_outcome X e ∧
  match returned (core_new X e) with
  | Raise _ =>
      core st' = core st ∧ engines st' = engines st ∧ environ st' = environ st
  | Ok _ => core st' = Some e ∧ length (engines st') = S e
  end.
Proof.
  intros Hinv e st'. subst st'.
  destruct (start_rhasspy_outcome X st Hinv) as (st' & Heq & _ & H).
  fold e in Heq, H. rewrite Heq. simpl. split; [done|].
  destruct (returned (core_new X e)); [|done].
  destruct H as (Hc & _ & He). split; [done|].
  rewrite He, length_app. simpl. unfold e. lia.
Qed.

Lemma start_rhasspy_assigns_before_starting_witness :
  let st := running configured in
  let st' := fst (start_rhasspy configured st) in
  snd (start_rhasspy configured st) = Raise (Exception "No such profile") ∧
  core st' = core st ∧ engines st' = engines st ∧ environ st' = environ st.
Proof.
  exact (start_rhasspy_assigns_before_starting configured (running configured)
           (bus_inv_running configured)).
Defined.



(** X15. A restart stops the old engine before it constructs the new one.
    When the constructor of the new engine raises, [api_restart] raises
    with it, no engine is added, and [core] goes on naming the old engine,
    which has been stopped. *)
Theorem api_restart_failure_leaves_a_stopped_engine
    (X : External) (req : Request) (st : State) (c : EngineId) (r : Engine)
    (err : exn) :
  bus_inv st → core st = Some c → engines st !! c = Some r →
  returned (core_shutdown X c) = Ok tt →
  returned (core_new X (length (engines st))) = Raise err →
  ∃ st', api_restart X req st = (st', Raise err) ∧
    core st' = Some c ∧
    engines st' !! c = Some (stopped_once r) ∧
    length (engines st') = length (engines st).
Proof.
  intros Hinv Hcore Hr Hstop Hnew.
  destruct (api_restart_outcome X req st c r Hinv Hcore Hr Hstop)
    as (st' & Heq & Hold & H).
  unfold start_outcome in Heq. rewrite Hnew in Heq, H. simpl in Heq.
  destruct H as [Hc Hl]. by exists st'.
Qed.

Lemma api_restart_failure_leaves_a_stopped_engine_witness :
  ∃ st', api_restart configured empty_request (running configured) =
           (st', Raise (Exception "No such profile")) ∧
    core st' = Some 0%nat ∧
    engines st' !! 0%nat =
      Some (stopped_once
              (mkEngine [("mqtt.port", PInt 12101); ("wake.system", PStr "dummy")] 1 0)) ∧
    length (engines st') = length (engines (running configured)).
Proof.
  exact (api_restart_failure_leaves_a_stopped_engine configured empty_request
           (running configured) 0%nat
           (mkEngine [("mqtt.port", PInt 12101); ("wake.system", PStr "dummy")] 1 0)
           (Exception "No such profile")
           (bus_inv_running configured) eq_refl eq_refl eq_refl eq_refl).
Defined.

(* ===================================================================== *)
(** ** More on the HTTP handlers *)
(* ===================================================================== *)

(** Log lines do not reach a queue registered for intents. *)
Lemma logs_only_intent_queue st st' q :
  bus_inv st → logs_only st st' → is_registered st INTENT q = true →
  pending st' q = pending st q ∧ is_registered st' INTENT q = true ∧ bus_inv st'.
Proof.
  intros Hinv (_ & _ & _ & Hq) Hreg.
  pose proof (quiet_bus_inv _ _ Hq Hinv) as Hinv'.
  destruct Hq as (Hw & _ & _ & Ho). split; [|split; [|done]].
  - apply Ho. by apply (registered_once st INTENT LOG).
  - by rewrite (is_registered_ws st st').
Qed.

(** X16. [api_text_to_intent] publishes the intent before it hands it to
    Home Assistant.  When the recognizer returns, every session that
    listens to intents gets the JSON of the recognized intent, with
    [speech_confidence] set to 1 and the time taken, whether the handling
    that follows returns or raises and whether [nohass] is given; the
    answer is the handled intent, or with [nohass] the published one.
    When the recognizer raises, nothing is published. *)
Theorem api_text_to_intent_publishes_before_handling
    (X : External) (req : Request) (st : State) (c : EngineId) :
  bus_inv st → core st = Some c →
  let fin := api_text_to_intent X req st in
  match returned (recognize_intent X c (data req)) with
  | Raise err =>
      snd fin = Raise err ∧
      (∀ q, is_registered st INTENT q = true → pending (fst fin) q = pending st q)
  | Ok recognized =>
      let intent := timed_intent X recognized in
      snd fin =
        (if arg_is_true req "nohass"
         then Ok (mkResponse (jsonify X (PDict intent)) 200)
         else match returned (handle_intent X c intent) with
              | Ok handled => Ok (mkResponse (jsonify X (PDict handled)) 200)
              | Raise err => Raise err
              end) ∧
      (∀ q, is_registered st INTENT q = true →
            pending (fst fin) q = pending st q ++ [json_dumps X (PDict intent)])
  end.
Proof.
  intros Hinv Hcore fin. subst fin. unfold api_text_to_intent.
  rewrite (bind_ok _ _ _ _ _ (assert_core_some st c Hcore)).
  destruct (external_spec (recognize_intent X c (data req)) st Hinv)
    as (st1 & Heq1 & H1).
  destruct (returned (recognize_intent X c (data req))) as [recognized|err].
  2:{ rewrite (bind_raise _ _ _ _ _ Heq1). simpl. split; [done|].
      intros q Hq. by destruct (logs_only_intent_queue st st1 q Hinv H1 Hq). }
  rewrite (bind_ok _ _ _ _ _ Heq1). fold (timed_intent X recognized).
  set (intent := timed_intent X recognized).
  unfold publish_and_handle, logger_debug.
  assert (bus_inv st1) as Hinv1.
  { eapply quiet_bus_inv; [by apply logs_only_quiet|done]. }
  destruct (log_handler_spec
              (log_format X AppLogger DEBUG (json_dumps X (PDict intent))) st1 Hinv1)
    as (st2 & Heq2 & H2).
  rewrite (bind_ok _ _ _ _ _ Heq2).
  assert (bus_inv st2) as Hinv2.
  { eapply quiet_bus_inv; [by apply logs_only_quiet|done]. }
  destruct (add_ws_event_spec st2 WS_EVENT_INTENT (json_dumps X (PDict intent))
              INTENT Hinv2 (py_index_intent st2 Hinv2))
    as (st3 & Heq3 & Hc3 & He3 & Hw3 & Hv3 & Hl3 & Hp3).
  rewrite (bind_ok _ _ _ _ _ Heq3).
  assert (bus_inv st3) as Hinv3.
  { pose proof (add_ws_event_inv st2 WS_EVENT_INTENT
                  (json_dumps X (PDict intent)) Hinv2) as H.
    by rewrite Heq3 in H. }
  assert (∀ q, is_registered st INTENT q = true →
               pending st3 q = pending st q ++ [json_dumps X (PDict intent)] ∧
               is_registered st3 INTENT q = true) as Hpub.
  { intros q Hq.
    destruct (logs_only_intent_queue st st1 q Hinv H1 Hq) as (Hp1 & Hq1 & _).
    destruct (logs_only_intent_queue st1 st2 q Hinv1 H2 Hq1) as (Hp2 & Hq2 & _).
    rewrite Hp3, Hq2, Hp2, Hp1. split; [done|].
    by rewrite (is_registered_ws st2 st3). }
  destruct (arg_is_true req "nohass").
  - unfold bind, ret. simpl. split; [done|]. intros q Hq. by apply Hpub.
  - destruct (external_spec (handle_intent X c intent) st3 Hinv3)
      as (st4 & Heq4 & H4).
    unfold bind. rewrite Heq4.
    assert (∀ q, is_registered st INTENT q = true →
                 pending st4 q = pending st q ++ [json_dumps X (PDict intent)]) as Hfin.
    { intros q Hq. destruct (Hpub q Hq) as [Hp Hr].
      destruct (logs_only_intent_queue st3 st4 q Hinv3 H4 Hr) as (Hp4 & _ & _).
      by rewrite Hp4. }
    destruct (returned (handle_intent X c intent)); simpl; by split.
Qed.

Lemma api_text_to_intent_publishes_before_handling_witness :
  let req := mkRequest "turn on the light" ∅ in
  let intent :=
    timed_intent configured
      [(PStr "text", PStr "turn on the light"); (PStr "entities", PList [])] in
  let fin := api_text_to_intent configured req (listening configured) in
  snd fin = Raise (Exception "Home Assistant is down") ∧
  (∀ q, is_registered (listening configured) INTENT q = true →
        pending (fst fin) q =
          pending (listening configured) q ++ [json_dumps configured (PDict intent)]).
Proof.
  exact (api_text_to_intent_publishes_before_handling configured
           (mkRequest "turn on the light" ∅) (listening configured) 0%nat
           (bus_inv_listening configured) eq_refl).
Defined.

(* ===================================================================== *)
(** ** Training, speaking, looking up *)
(* ===================================================================== *)

(** X17. When training fails, the request is answered with status 500 and
    the text [Training failed: ] followed by the reason as the engine
    gave it; the engine handle and the engines are as they were. *)
Theorem training_failure_names_the_reason
    (X : External) (V : Services) (req : Request) (st : State)
    (c : EngineId) (reason : string) :
  bus_inv st → core st = Some c →
  (arg_is_true req "nocache" && cache_exists V c = true → unlink_cache V c = Ok tt) →
  returned (train V c) = Ok (ProfileTrainingFailed reason) →
  ∃ st', dispatch X (api_train X V) req st =
           (st', Ok (mkResponse ("Training failed: " +:+ reason) 500)) ∧
    core st' = core st ∧ engines st' = engines st.
Proof.
  intros Hinv Hcore Hcache Htrain. unfold dispatch, api_train.
  rewrite (bind_ok _ _ _ _ _ (assert_core_some st c Hcore)).
  assert (∃ st1, (if arg_is_true req "nocache" && cache_exists V c
                  then logger_debug X "Clearing training cache" ;; lift (unlink_cache V c)
                  else ret tt) st = (st1, Ok tt) ∧ logs_only st st1) as (st1 & Heq1 & H1).
  { destruct (arg_is_true req "nocache" && cache_exists V c).
    - unfold logger_debug.
      destruct (log_handler_spec (log_format X AppLogger DEBUG "Clearing training cache")
                  st Hinv) as (st1 & Heq & H).
      exists st1. rewrite (bind_ok _ _ _ _ _ Heq). unfold lift.
      by rewrite Hcache.
    - exists st. split; [done|apply logs_only_refl]. }
  rewrite (bind_ok _ _ _ _ _ Heq1).
  assert (bus_inv st1) as Hinv1.
  { eapply quiet_bus_inv; [by apply logs_only_quiet|done]. }
  unfold logger_info.
  destruct (log_handler_spec (log_format X AppLogger INFO "Starting training") st1 Hinv1)
    as (st2 & Heq2 & H2).
  rewrite (bind_ok _ _ _ _ _ Heq2).
  assert (bus_inv st2) as Hinv2.
  { eapply quiet_bus_inv; [by apply logs_only_quiet|done]. }
  destruct (external_spec (train V c) st2 Hinv2) as (st3 & Heq3 & H3).
  rewrite Htrain in Heq3. rewrite (bind_ok _ _ _ _ _ Heq3). simpl.
  assert (bus_inv st3) as Hinv3.
  { eapply quiet_bus_inv; [by apply logs_only_quiet|done]. }
  unfold handle_error, logger_exception.
  destruct (log_handler_spec
              (log_exception X AppLogger (Exception ("Training failed: " +:+ reason)))
              st3 Hinv3) as (st4 & Heq4 & H4).
  rewrite (bind_ok _ _ _ _ _ Heq4). exists st4. split; [done|].
  destruct H1 as (? & ? & _), H2 as (? & ? & _), H3 as (? & ? & _), H4 as (? & ? & _).
  split; congruence.
Qed.

Lemma training_failure_names_the_reason_witness :
  ∃ st', dispatch calm (api_train calm helpful) empty_request (running calm) =
           (st', Ok (mkResponse "Training failed: missing sentences file" 500)) ∧
    core st' = core (running calm) ∧ engines st' = engines (running calm).
Proof.
  apply (training_failure_names_the_reason calm helpful empty_request (running calm)
           0%nat "missing sentences file" (bus_inv_running calm));
    [reflexivity|discriminate|reflexivity].
Defined.

(** What [api_text_to_speech] does with an engine. *)
Lemma api_text_to_speech_outcome
    (V : Services) (req : Request) (last : string) (st : State) (c : EngineId) :
  bus_inv st → core st = Some c →
  let sentence :=
    if bool_decide (lower (strip (default "false" (args req !! "repeat"))) = "true")
    then last else strip (data req) in
  ∃ st', logs_only st st' ∧
    api_text_to_speech V req last st =
      match returned (speak_sentence V c sentence) with
      | Ok _ => (st', Ok (mkResponse sentence 200), sentence)
      | Raise err => (st', Raise err, last)
      end.
Proof.
  intros Hinv Hcore sentence. unfold api_text_to_speech. fold sentence.
  rewrite (bind_ok _ _ _ _ _ (assert_core_some st c Hcore)).
  destruct (external_spec (speak_sentence V c sentence) st Hinv) as (st1 & -> & H1).
  exists st1. split; [done|].
  by destruct (returned (speak_sentence V c sentence)).
Qed.

(** X18. [api_text_to_speech] remembers what was spoken: a request that is
    spoken answers with its sentence, stripped, and a request with
    [repeat] that follows it speaks and answers that same sentence,
    whatever its own body says. *)
Theorem repeat_speaks_the_last_sentence
    (V : Services) (req again : Request) (last : string) (st : State) (c : EngineId) :
  bus_inv st → core st = Some c →
  lower (strip (default "false" (args req !! "repeat"))) ≠ "true" →
  lower (strip (default "false" (args again !! "repeat"))) = "true" →
  returned (speak_sentence V c (strip (data req))) = Ok tt →
  let first := api_text_to_speech V req last st in
  let second := api_text_to_speech V again (snd first) (fst (fst first)) in
  snd (fst first) = Ok (mkResponse (strip (data req)) 200) ∧
  snd first = strip (data req) ∧
  snd (fst second) = Ok (mkResponse (strip (data req)) 200) ∧
  snd second = strip (data req).
Proof.
  intros Hinv Hcore Hno Hyes Hspeak first second.
  destruct (api_text_to_speech_outcome V req last st c Hinv Hcore) as (st1 & H1 & Heq1).
  rewrite (bool_decide_eq_false_2 _ Hno), Hspeak in Heq1.
  subst second first. rewrite Heq1. cbn [fst snd].
  assert (bus_inv st1) as Hinv1.
  { eapply quiet_bus_inv; [by apply logs_only_quiet|done]. }
  assert (core st1 = Some c) as Hcore1.
  { destruct H1 as (Hc & _). congruence. }
  destruct (api_text_to_speech_outcome V again (strip (data req)) st1 c Hinv1 Hcore1)
    as (st2 & _ & Heq2).
  rewrite (bool_decide_eq_true_2 _ Hyes), Hspeak in Heq2.
  by rewrite Heq2.
Qed.

Lemma repeat_speaks_the_last_sentence_witness :
  let first := api_text_to_speech helpful (mkRequest " hello there " ∅)
                 "before" (running calm) in
  let second := api_text_to_speech helpful repeat_request (snd first) (fst (fst first)) in
  snd (fst first) = Ok (mkResponse "hello there" 200) ∧
  snd first = "hello there" ∧
  snd (fst second) = Ok (mkResponse "hello there" 200) ∧
  snd second = "hello there".
Proof.
  apply (repeat_speaks_the_last_sentence helpful (mkRequest " hello there " ∅)
           repeat_request "before" (running calm) 0%nat (bus_inv_running calm));
    [reflexivity|vm_compute; discriminate|reflexivity|reflexivity].
Defined.

(** X19. When the engine is null or does not speak the sentence,
    [api_text_to_speech] raises and [last_sentence] is what it was: the
    sentence is remembered only once it has been spoken. *)
Theorem unspoken_sentence_is_not_remembered
    (V : Services) (req : Request) (last : string) (st : State) :
  bus_inv st →
  let fin := api_text_to_speech V req last st in
  let sentence :=
    if bool_decide (lower (strip (default "false" (args req !! "repeat"))) = "true")
    then last else strip (data req) in
  match core st with
  | None => fin = (st, Raise (AssertionError EmptyString), last)
  | Some c =>
      match returned (speak_sentence V c sentence) with
      | Ok _ => snd (fst fin) = Ok (mkResponse sentence 200) ∧ snd fin = sentence
      | Raise err => snd (fst fin) = Raise err ∧ snd fin = last
      end
  end.
Proof.
  intros Hinv fin sentence. subst fin.
  destruct (core st) as [c|] eqn:Hcore.
  - destruct (api_text_to_speech_outcome V req last st c Hinv Hcore) as (st1 & _ & ->).
    fold sentence. by destruct (returned (speak_sentence V c sentence)).
  - unfold api_text_to_speech.
    by rewrite (bind_raise _ _ _ _ _ (assert_core_none st Hcore)).
Qed.

Lemma unspoken_sentence_is_not_remembered_witness :
  api_text_to_speech helpful repeat_request "before" init_state =
    (init_state, Raise (AssertionError EmptyString), "before").
Proof.
  exact (unspoken_sentence_is_not_remembered helpful repeat_request "before"
           init_state bus_inv_init).
Defined.

(* ===================================================================== *)
(** ** Text and the files of words *)
(* ===================================================================== *)

Lemma append_nil_l (s : string) : EmptyString +:+ s = s.
Proof. reflexivity. Qed.

Lemma append_cons c (s t : string) : String c s +:+ t = String c (s +:+ t).
Proof. reflexivity. Qed.

Lemma append_nil_r (s : string) : s +:+ EmptyString = s.
Proof.
  induction s as [|c s IH]; [done|]. by rewrite append_cons, IH.
Qed.

Lemma append_assoc (a b c : string) : (a +:+ b) +:+ c = a +:+ (b +:+ c).
Proof.
  induction a as [|x a IH]; [done|]. by rewrite !append_cons, IH.
Qed.

Lemma all_chars_append p (a b : string) :
  all_chars p (a +:+ b) = all_chars p a && all_chars p b.
Proof.
  induction a as [|x a IH]; [done|].
  rewrite append_cons. simpl. rewrite IH. by rewrite andb_assoc.
Qed.

(** *** [strip] *)

Lemma rstrip_cons c s :
  is_space c = false → rstrip (String c s) = String c (rstrip s).
Proof. intros Hc. simpl. rewrite Hc. by destruct (rstrip s). Qed.

Lemma rstrip_idem s : rstrip (rstrip s) = rstrip s.
Proof.
  induction s as [|c s IH]; [done|]. simpl.
  destruct (rstrip s) as [|d r] eqn:Hr.
  - destruct (is_space c) eqn:Hc; [done|]. simpl. by rewrite Hc.
  - change (rstrip (String c (String d r))) with
      (match rstrip (String d r) with
       | EmptyString => if is_space c then EmptyString else String c EmptyString
       | String x y => String c (String x y)
       end).
    by rewrite IH.
Qed.

Lemma lstrip_head s :
  lstrip s = EmptyString ∨ ∃ c s', lstrip s = String c s' ∧ is_space c = false.
Proof.
  induction s as [|c s IH]; [by left|]. simpl.
  destruct (is_space c) eqn:Hc; [done|]. right. by exists c, s.
Qed.

Lemma lstrip_strip s : lstrip (strip s) = strip s.
Proof.
  unfold strip. destruct (lstrip_head s) as [->|(c & s' & -> & Hc)]; [done|].
  rewrite rstrip_cons by done. simpl. by rewrite Hc.
Qed.

Lemma strip_idem s : strip (strip s) = strip s.
Proof.
  unfold strip at 1. rewrite lstrip_strip. unfold strip. apply rstrip_idem.
Qed.

Lemma lstrip_empty s : lstrip s = EmptyString ↔ all_chars is_space s = true.
Proof.
  induction s as [|c s IH]; simpl; [done|].
  destruct (is_space c); simpl; [done|]. split; discriminate.
Qed.

Lemma strip_empty s : strip s = EmptyString ↔ all_chars is_space s = true.
Proof.
  rewrite <-lstrip_empty. unfold strip.
  destruct (lstrip_head s) as [->|(c & s' & -> & Hc)]; [done|].
  rewrite rstrip_cons by done. split; discriminate.
Qed.

Lemma py_lower_empty s : py_lower s = EmptyString ↔ s = EmptyString.
Proof. destruct s; simpl; split; (done || discriminate). Qed.

Lemma all_chars_lstrip p s : all_chars p s = true → all_chars p (lstrip s) = true.
Proof.
  induction s as [|c s IH]; simpl; [done|]. intros (Hc & Hs)%andb_true_iff.
  destruct (is_space c); [by apply IH|]. simpl. by rewrite Hc, Hs.
Qed.

Lemma all_chars_rstrip p s : all_chars p s = true → all_chars p (rstrip s) = true.
Proof.
  induction s as [|c s IH]; simpl; [done|]. intros (Hc & Hs)%andb_true_iff.
  specialize (IH Hs). destruct (rstrip s) as [|d r].
  - destruct (is_space c); simpl; [done|]. by rewrite Hc.
  - simpl in *. by rewrite Hc, IH.
Qed.

Lemma all_chars_strip p s : all_chars p s = true → all_chars p (strip s) = true.
Proof. intros H. by apply all_chars_rstrip, all_chars_lstrip. Qed.

(** *** [splitlines] *)

Lemma not_line_end_not_CR c : is_line_end c = false → (code c =? 13)%nat = false.
Proof.
  intros H. destruct (code c =? 13)%nat eqn:Hc; [|done].
  apply Nat.eqb_eq in Hc. unfold is_line_end in H. by rewrite Hc in H.
Qed.

Lemma CR_line_end c : (code c =? 13)%nat = true → is_line_end c = true.
Proof. intros Hc%Nat.eqb_eq. unfold is_line_end. by rewrite Hc. Qed.

Lemma lines_from_line (l acc rest : string) :
  all_chars not_line_end l = true →
  lines_from acc (l +:+ newline +:+ rest) = (acc +:+ l) :: lines_from EmptyString rest.
Proof.
  revert acc. induction l as [|c l IH]; intros acc Hl.
  - rewrite append_nil_l, append_nil_r. unfold newline. by rewrite append_cons.
  - simpl in Hl. apply andb_true_iff in Hl as (Hc & Hl).
    apply negb_true_iff in Hc.
    rewrite append_cons. cbn [lines_from]. rewrite (not_line_end_not_CR c Hc), Hc.
    rewrite IH by done. by rewrite append_assoc.
Qed.

Lemma splitlines_unlines (lines : list string) :
  Forall (λ l, all_chars not_line_end l = true) lines →
  splitlines (unlines lines) = lines.
Proof.
  unfold splitlines. induction 1 as [|l lines Hl _ IH]; [done|].
  cbn [unlines]. rewrite lines_from_line by done. by rewrite IH.
Qed.

Lemma lines_from_no_line_end (n : nat) : ∀ (s line : string),
  (String.length s <= n)%nat →
  all_chars not_line_end line = true →
  Forall (λ l, all_chars not_line_end l = true) (lines_from line s).
Proof.
  induction n as [|n IH]; intros s line Hn Hline.
  - destruct s; [|simpl in Hn; lia]. simpl. destruct line; by repeat constructor.
  - destruct s as [|c s].
    { simpl. destruct line; by repeat constructor. }
    simpl in Hn. cbn [lines_from].
    destruct (code c =? 13)%nat eqn:Hc.
    + destruct s as [|c' s]; [by repeat constructor|].
      simpl in Hn.
      destruct (code c' =? 10)%nat; constructor; try done;
        apply IH; simpl; (done || lia).
    + destruct (is_line_end c) eqn:Hle.
      * constructor; [done|]. apply IH; [lia|done].
      * apply IH; [lia|]. rewrite all_chars_append, Hline. simpl.
        unfold not_line_end. by rewrite Hle.
Qed.

Lemma splitlines_no_line_end (s : string) :
  Forall (λ l, all_chars not_line_end l = true) (splitlines s).
Proof. by apply (lines_from_no_line_end (String.length s)). Qed.

(** *** The file of custom words *)

Lemma write_custom_words_spec lines file n :
  write_custom_words lines file n =
    (file +:+ unlines (kept_lines lines), (n + length (kept_lines lines))%nat).
Proof.
  revert file n. induction lines as [|line lines IH]; intros file n.
  - simpl. by rewrite append_nil_r, Nat.add_0_r.
  - cbn [write_custom_words]. unfold kept_lines. rewrite fmap_cons. cbn [List.filter].
    case_bool_decide as Hline; cbn [negb].
    + apply IH.
    + rewrite IH. unfold kept_lines. cbn [unlines length].
      rewrite !append_assoc. f_equal. lia.
Qed.

Lemma kept_lines_kept lines :
  Forall (λ l, strip l = l ∧ l ≠ EmptyString) lines → kept_lines lines = lines.
Proof.
  unfold kept_lines. induction 1 as [|l lines (Hs & Hne) _ IH]; [done|].
  rewrite fmap_cons. cbn [List.filter]. rewrite Hs.
  rewrite bool_decide_eq_false_2 by done. cbn [negb]. by rewrite IH.
Qed.

Lemma kept_lines_spec lines :
  Forall (λ l, all_chars not_line_end l = true) lines →
  Forall (λ l, (strip l = l ∧ l ≠ EmptyString) ∧ all_chars not_line_end l = true)
    (kept_lines lines).
Proof.
  unfold kept_lines. induction 1 as [|l lines Hl _ IH]; [constructor|].
  rewrite fmap_cons. cbn [List.filter].
  case_bool_decide as Hline; cbn [negb]; [done|].
  constructor; [|done]. split; [split; [apply strip_idem|done]|].
  by apply all_chars_strip.
Qed.

(** X20. For a POST, [api_custom_words] writes the lines of the request,
    stripped, without the empty ones, each ended by a newline, and counts
    them; no line of the file is empty or has white space at an end. *)
Theorem custom_words_file_is_the_kept_lines
    (V : Services) (req : Request) (st : State) (c : EngineId) :
  core st = Some c →
  let kept := kept_lines (splitlines (data req)) in
  api_custom_words_post V req st =
    (st, Ok (mkResponse (wrote_text V (length kept)) 200, unlines kept)) ∧
  splitlines (unlines kept) = kept ∧
  Forall (λ l, strip l = l ∧ l ≠ EmptyString) kept.
Proof.
  intros Hcore kept. unfold api_custom_words_post.
  rewrite (bind_ok _ _ _ _ _ (assert_core_some st c Hcore)).
  rewrite write_custom_words_spec. cbn [fst snd ret]. fold kept.
  pose proof (kept_lines_spec _ (splitlines_no_line_end (data req))) as Hk.
  fold kept in Hk. apply Forall_and in Hk as (Hk1 & Hk2).
  split; [done|]. split; [by apply splitlines_unlines|done].
Qed.

Lemma custom_words_file_is_the_kept_lines_witness :
  let kept := kept_lines (splitlines (data words_request)) in
  api_custom_words_post helpful words_request (running calm) =
    (running calm, Ok (mkResponse (wrote_text helpful (length kept)) 200, unlines kept)) ∧
  splitlines (unlines kept) = kept ∧
  Forall (λ l, strip l = l ∧ l ≠ EmptyString) kept.
Proof.
  exact (custom_words_file_is_the_kept_lines helpful words_request (running calm)
           0%nat eq_refl).
Defined.

(** X21. The file that [api_custom_words] writes is a fixed point: posted
    again as it is, it is written again as it is, with the same count. *)
Theorem custom_words_round_trip
    (V : Services) (req again : Request) (st : State) (c : EngineId)
    (resp : Response) (file : string) :
  core st = Some c →
  api_custom_words_post V req st = (st, Ok (resp, file)) →
  data again = file →
  api_custom_words_post V again st = (st, Ok (resp, file)).
Proof.
  intros Hcore Hfirst Hdata. unfold api_custom_words_post in *.
  rewrite (bind_ok _ _ _ _ _ (assert_core_some st c Hcore)) in Hfirst.
  rewrite (bind_ok _ _ _ _ _ (assert_core_some st c Hcore)).
  rewrite write_custom_words_spec in Hfirst. rewrite write_custom_words_spec.
  cbn [fst snd ret] in Hfirst |- *. rewrite append_nil_l in Hfirst. rewrite append_nil_l.
  injection Hfirst as <- <-. rewrite Hdata.
  pose proof (kept_lines_spec _ (splitlines_no_line_end (data req))) as Hk.
  apply Forall_and in Hk as (Hk1 & Hk2).
  rewrite splitlines_unlines by done. by rewrite kept_lines_kept.
Qed.

Lemma custom_words_round_trip_witness :
  api_custom_words_post helpful
    (mkRequest ("foo F UW" +:+ newline +:+ "bar B AA R" +:+ newline) ∅) (running calm) =
    (running calm,
     Ok (mkResponse "Wrote 2 line(s)" 200,
         "foo F UW" +:+ newline +:+ "bar B AA R" +:+ newline)).
Proof.
  apply (custom_words_round_trip helpful words_request _ (running calm) 0%nat);
    reflexivity.
Defined.

(** X22. [api_lookup] checks the count before the word, and both before
    it asks the engine: with a count that is not positive, or with a body
    of white space only, it raises [AssertionError] with the text of the
    first check that fails, and the state is what it was. *)
Theorem lookup_refuses_before_the_engine
    (X : External) (V : Services) (req : Request) (st : State) (c : EngineId) (n : Z) :
  core st = Some c →
  lookup_count V req = Ok n →
  n <= 0 ∨ all_chars is_space (data req) = true →
  api_lookup X V req st =
    (st, Raise (AssertionError (if bool_decide (n > 0) then "No word to look up"
                                else "No pronunciations requested"))).
Proof.
  intros Hcore Hn Hbad. unfold api_lookup.
  rewrite (bind_ok _ _ _ _ _ (assert_core_some st c Hcore)).
  assert ((match args req !! "n" with
           | Some v => lift (int_of V v)
           | None => ret 5
           end) st = (st, Ok n)) as Hcount.
  { unfold lookup_count in Hn. destruct (args req !! "n"); unfold lift, ret; congruence. }
  rewrite (bind_ok _ _ _ _ _ Hcount).
  case_bool_decide as Hpos.
  - destruct Hbad as [Hle|Hblank]; [lia|].
    apply strip_empty in Hblank. rewrite Hblank. done.
  - done.
Qed.

Lemma lookup_refuses_before_the_engine_witness :
  api_lookup calm helpful no_pronunciations (running calm) =
    (running calm, Raise (AssertionError "No pronunciations requested")).
Proof.
  apply (lookup_refuses_before_the_engine calm helpful no_pronunciations (running calm)
           0%nat 0); [reflexivity|reflexivity|left; lia].
Defined.

(** *** The file of unknown words *)

Lemma split_at_blanks_whole s : has_blank s = false → split_at_blanks s = [s].
Proof.
  unfold has_blank. intros H%negb_false_iff.
  induction s as [|c s IH]; [done|]. simpl in H.
  apply andb_true_iff in H as (Hc%negb_true_iff & Hs).
  simpl. rewrite Hc. by rewrite IH.
Qed.

Lemma drop_blanks_parts s :
  ∃ k, s = blanks k +:+ drop_blanks s ∧ drop_blanks (drop_blanks s) = drop_blanks s.
Proof.
  induction s as [|c s (k & Hs & Hd)]; [by exists 0%nat|]. simpl.
  destruct (is_blank c) eqn:Hc.
  - exists (S k). split; [|done]. cbn [blanks]. rewrite append_cons, <-Hs.
    unfold is_blank in Hc. apply Nat.eqb_eq in Hc. unfold code in Hc.
    by rewrite <-Hc, Ascii.ascii_nat_embedding.
  - exists 0%nat. split; [done|]. simpl. by rewrite Hc.
Qed.

(** A line with a blank is cut at its first run of blanks, and the two
    parts with the blanks between them are the line. *)
Lemma split_at_blanks_parts s :
  has_blank s = true →
  ∃ w k p, split_at_blanks s = [w; p] ∧ s = w +:+ blanks (S k) +:+ p ∧
    has_blank w = false ∧ drop_blanks p = p.
Proof.
  unfold has_blank. intros H%negb_true_iff.
  induction s as [|c s IH]; [done|]. simpl in H. simpl.
  destruct (is_blank c) eqn:Hc.
  - destruct (drop_blanks_parts s) as (k & Hs & Hd).
    exists EmptyString, k, (drop_blanks s). split; [done|].
    split; [|done]. rewrite append_nil_l. cbn [blanks]. rewrite append_cons, <-Hs.
    unfold is_blank in Hc. apply Nat.eqb_eq in Hc. unfold code in Hc.
    by rewrite <-Hc, Ascii.ascii_nat_embedding.
  - simpl in H. destruct (IH H) as (w & k & p & -> & Hs & Hw & Hp).
    exists (String c w), k, p. split; [done|].
    split; [rewrite append_cons; f_equal; exact Hs|]. split; [|done].
    unfold has_blank in *. simpl. rewrite Hc. simpl.
    by apply negb_false_iff in Hw as ->.
Qed.

Lemma split_at_blanks_join w k p :
  has_blank w = false → drop_blanks p = p →
  split_at_blanks (w +:+ blanks (S k) +:+ p) = [w; p].
Proof.
  unfold has_blank. intros Hw%negb_false_iff Hp.
  induction w as [|c w IH].
  - rewrite append_nil_l. cbn [blanks]. rewrite append_cons.
    cbn [split_at_blanks]. change (is_blank (Ascii.ascii_of_nat 32)) with true.
    cbv iota. f_equal. f_equal.
    clear -Hp. induction k as [|k IH]; [by rewrite append_nil_l|].
    cbn [blanks]. rewrite append_cons. by cbn [drop_blanks].
  - simpl in Hw. apply andb_true_iff in Hw as (Hc%negb_true_iff & Hw).
    rewrite append_cons. cbn [split_at_blanks]. rewrite Hc. by rewrite IH.
Qed.

Lemma read_unknown_words_app l1 l2 acc :
  read_unknown_words (l1 ++ l2) acc =
    match read_unknown_words l1 acc with
    | Ok d => read_unknown_words l2 d
    | Raise err => Raise err
    end.
Proof.
  revert acc. induction l1 as [|line l1 IH]; intros acc; [done|].
  rewrite <-app_comm_cons. cbn [read_unknown_words].
  case_bool_decide; [apply IH|].
  destruct (split_at_blanks (strip line)) as [|w [|p [|? ?]]]; done.
Qed.

Lemma read_unknown_words_readable lines acc :
  match read_unknown_words lines acc with
  | Ok _ => forallb readable lines = true
  | Raise err =>
      forallb readable lines = false ∧
      err = Exception "not enough values to unpack (expected 2, got 1)"
  end.
Proof.
  revert acc. induction lines as [|line lines IH]; intros acc; [done|].
  cbn [read_unknown_words forallb]. unfold readable at 1 3.
  case_bool_decide as Hline; [apply IH|]. cbn [orb].
  destruct (has_blank (strip line)) eqn:Hb.
  - destruct (split_at_blanks_parts _ Hb) as (w & k & p & -> & _). apply IH.
  - by rewrite (split_at_blanks_whole _ Hb).
Qed.

Lemma read_unknown_words_other later w : ∀ acc d,
  Forall (λ l, strip l = EmptyString ∨ word_of l ≠ w) later →
  read_unknown_words later acc = Ok d →
  dict_get d (PStr w) = dict_get acc (PStr w).
Proof.
  induction later as [|line later IH]; intros acc d Hlater Hread.
  - simpl in Hread. congruence.
  - apply Forall_cons in Hlater as (Hline & Hlater).
    cbn [read_unknown_words] in Hread.
    case_bool_decide as Hempty; [by apply IH|].
    destruct Hline as [?|Hw]; [done|]. unfold word_of in Hw.
    destruct (split_at_blanks (strip line)) as [|w' [|p [|? ?]]]; try done.
    rewrite (IH _ _ Hlater Hread), dict_get_store. simpl in Hw |- *.
    by rewrite bool_decide_eq_false_2.
Qed.

(** X23. [api_unknown_words] answers with the words exactly when every
    line of the file is empty once stripped or has a blank inside; a line
    of one word makes the request fail with status 500 and the text of
    the unpacking error. *)
Theorem unknown_words_needs_two_parts
    (X : External) (V : Services) (req : Request) (st : State) (c : EngineId)
    (lines : list string) :
  bus_inv st → core st = Some c → unknown_words_lines V c = Some lines →
  ∃ st' resp, dispatch X (api_unknown_words X V) req st = (st', Ok resp) ∧
    if forallb readable lines then status resp = 200
    else resp = mkResponse "not enough values to unpack (expected 2, got 1)" 500.
Proof.
  intros Hinv Hcore Hlines. unfold dispatch, api_unknown_words.
  rewrite (bind_ok _ _ _ _ _ (assert_core_some st c Hcore)). rewrite Hlines.
  pose proof (read_unknown_words_readable lines []) as Hread.
  unfold bind, lift.
  destruct (read_unknown_words lines []) as [d|err].
  - rewrite Hread. by eexists _, _.
  - destruct Hread as (-> & ->). unfold handle_error, logger_exception.
    destruct (log_handler_spec
                (log_exception X AppLogger
                   (Exception "not enough values to unpack (expected 2, got 1)"))
                st Hinv) as (st1 & Heq & _).
    fold (bind (log_handler
      (log_exception X AppLogger
         (Exception "not enough values to unpack (expected 2, got 1)")))
      (λ _, ret (mkResponse (str_exn X
         (Exception "not enough values to unpack (expected 2, got 1)")) 500)) st).
    rewrite (bind_ok _ _ _ _ _ Heq). by eexists _, _.
Qed.

Lemma unknown_words_needs_two_parts_witness :
  ∃ st' resp,
    dispatch calm (api_unknown_words calm helpful) empty_request (running calm) =
      (st', Ok resp) ∧
    resp = mkResponse "not enough values to unpack (expected 2, got 1)" 500.
Proof.
  exact (unknown_words_needs_two_parts calm helpful empty_request (running calm) 0%nat
           ["raxacoricofallapatorius"] (bus_inv_running calm) eq_refl eq_refl).
Defined.

(** X24. In the file of unknown words the last line of a word wins: when
    the file is read, a line made of a word without blanks, one blank or
    more, and a pronunciation gives the word that pronunciation, whatever
    the lines before it say, as long as no line after it is for the same
    word. *)
Theorem last_line_of_a_word_wins
    (earlier later : list string) (line w p : string) (k : nat) (acc d : Dict) :
  strip line = w +:+ blanks (S k) +:+ p →
  has_blank w = false → drop_blanks p = p →
  Forall (λ l, strip l = EmptyString ∨ word_of l ≠ w) later →
  read_unknown_words (earlier ++ line :: later) acc = Ok d →
  dict_get d (PStr w) = Some (PStr p).
Proof.
  intros Hline Hw Hp Hlater Hread. rewrite read_unknown_words_app in Hread.
  destruct (read_unknown_words earlier acc) as [d1|]; [|done].
  cbn [read_unknown_words] in Hread. rewrite Hline in Hread.
  rewrite (split_at_blanks_join w k p Hw Hp) in Hread.
  case_bool_decide as Hempty.
  { destruct w; discriminate. }
  rewrite (read_unknown_words_other later w _ _ Hlater Hread), dict_get_store.
  simpl. by rewrite bool_decide_eq_true_2.
Qed.

Lemma last_line_of_a_word_wins_witness :
  dict_get [(PStr "foo", PStr "F OW"); (PStr "bar", PStr "B AR")] (PStr "foo") =
    Some (PStr "F OW").
Proof.
  apply (last_line_of_a_word_wins ["foo F UW"] [""; "bar B AR"] "foo  F OW "
           "foo" "F OW" 1 []);
    [reflexivity|reflexivity|reflexivity| |reflexivity].
  constructor; [by left|].
  constructor; [right; vm_compute; discriminate|constructor].
Defined.

(** *** The files of slot values *)

Lemma print_slot_values_spec (values : list string) (file : string) :
  print_slot_values (PStr <$> values) file =
    (file +:+ unlines (kept_lines values), Ok tt).
Proof.
  revert file. induction values as [|value values IH]; intros file.
  - simpl. by rewrite append_nil_r.
  - rewrite fmap_cons. cbn [print_slot_values]. unfold kept_lines.
    rewrite fmap_cons. cbn [List.filter].
    case_bool_decide as Hvalue; cbn [negb].
    + apply IH.
    + rewrite IH. unfold kept_lines. cbn [unlines]. by rewrite !append_assoc.
Qed.

Lemma read_slot_file_unlines (lines : list string) :
  Forall (λ l, (strip l = l ∧ l ≠ EmptyString) ∧ all_chars not_line_end l = true) lines →
  read_slot_file (unlines lines) = lines.
Proof.
  intros (Hs & Hl)%Forall_and. unfold read_slot_file.
  rewrite splitlines_unlines by done.
  clear Hl. induction Hs as [|l lines (Hl & _) _ IH]; [done|].
  rewrite fmap_cons. by rewrite Hl, IH.
Qed.

(** X25. The file that [api_slots] writes for a slot whose values are
    strings without line ends is read back by [api_slots] as those
    values, stripped, without the empty ones; and a single string is
    written as the list of that string is. *)
Theorem slot_file_round_trip (values : list string) :
  Forall (λ v, all_chars not_line_end v = true) values →
  ∃ text, write_slot_file (PList (PStr <$> values)) = (text, Ok tt) ∧
    read_slot_file text = kept_lines values ∧
    ∀ v, values = [v] → write_slot_file (PStr v) = (text, Ok tt).
Proof.
  intros Hvalues. exists (unlines (kept_lines values)).
  unfold write_slot_file. rewrite print_slot_values_spec, append_nil_l.
  split; [done|]. split.
  - by apply read_slot_file_unlines, kept_lines_spec.
  - intros v ->. by rewrite (print_slot_values_spec [v]), append_nil_l.
Qed.

Lemma slot_file_round_trip_witness :
  ∃ text, write_slot_file (PList (PStr <$> [" red "; "  "; "green"])) = (text, Ok tt) ∧
    read_slot_file text = kept_lines [" red "; "  "; "green"] ∧
    ∀ v, [" red "; "  "; "green"] = [v] → write_slot_file (PStr v) = (text, Ok tt).
Proof.
  apply (slot_file_round_trip [" red "; "  "; "green"]). by repeat constructor.
Defined.
